(** * Government system integration layer: cross-registry business verification

    A shallow embedding of [government-integrations.py]
    (class [GovernmentSystemIntegrator]) and the properties of its
    orchestrator, result cache, consistency rules and score.

    Conventions of the embedding.
    - JSON documents and Python dictionaries are [value]s; a dictionary
      with string keys is a [gmap string value].
    - A Python [float] is represented by the rational it denotes
      ([Qc] inside documents, [Q] for the score); arithmetic on them is
      exact.  The score is computed in double precision as well
      ([Binary64]) and compared with the exact one.
    - A Python [str] is a byte string; [str.upper] acts on ASCII letters.
    - A [datetime] is a number of microseconds ([Z]).
    - Raising is a value of type [exn]; code that can raise returns a
      [result].
    - The integrator's mutable attributes, the clock, the network and the
      database are threaded through the monad [M]; what the clock, the
      registries and the database answer is a parameter, the [World].
    - The integrator is used inside its [async with] block, so that
      [self.session] is open, and one orchestration run is looked at at
      a time: runs do not overlap.

    The file has three parts: the embedding of the source, the
    vocabulary of the statements with the concrete worlds they are tried
    on, and the proofs. *)

From Stdlib Require Import Ascii QArith Qminmax Qabs Qcanon Lqa SpecFloat.
From Stdlib Require String.
From stdpp Require Import gmap strings list fin_maps countable numbers pretty.

Set Warnings "-register-all,-clear-no-such-hyp".
Set Default Proof Using "Type".

Local Open Scope Z_scope.

(** ** Python values *)

Inductive value :=
| VNone
| VBool (b : bool)
| VInt (n : Z)
| VFloat (q : Qc)
| VStr (s : string)
| VList (l : list value)
| VDict (d : gmap string value).

(** A record-like dictionary: what an adapter returns. *)
Abbreviation Data := (gmap string value).

Definition type_name (v : value) : string :=
  match v with
  | VNone => "NoneType"
  | VBool _ => "bool"
  | VInt _ => "int"
  | VFloat _ => "float"
  | VStr _ => "str"
  | VList _ => "list"
  | VDict _ => "dict"
  end.

(** ** Exceptions and results *)

Inductive exn :=
| AttributeError (msg : string)
| TypeError (msg : string)
| KeyError (key_repr : string)
| NotImplementedError (msg : string)
| CollaboratorError (msg : string).

(** [str(e)] *)
Definition str_exn (e : exn) : string :=
  match e with
  | AttributeError m | TypeError m | KeyError m
  | NotImplementedError m | CollaboratorError m => m
  end.

Definition result (A : Type) : Type := (exn + A)%type.

Definition ok {A} (a : A) : result A := inr a.
Definition raise {A} (e : exn) : result A := inl e.

#[global] Instance result_ret : MRet result := λ A a, inr a.
#[global] Instance result_bind : MBind result := λ A B f m,
  match m with
  | inl e => inl e
  | inr a => f a
  end.

Definition is_ok {A} (r : result A) : bool :=
  match r with inr _ => true | inl _ => false end.

Definition no_attribute {A} (v : value) (attr : string) : result A :=
  raise (AttributeError
    ("'" +:+ type_name v +:+ "' object has no attribute '" +:+ attr +:+ "'")).

(** ** Primitives of the language used by the integrator *)

(** [bool(v)] *)
Definition truthy (v : value) : bool :=
  match v with
  | VNone => false
  | VBool b => b
  | VInt n => negb (n =? 0)
  | VFloat q => negb (bool_decide (q = Q2Qc 0))
  | VStr s => negb (bool_decide (s = ""))
  | VList l => negb (bool_decide (l = []))
  | VDict d => negb (bool_decide (d = ∅))
  end.

(** [a or b] *)
Definition py_or (a b : value) : value := if truthy a then a else b.

(** [d.get(k, default)] on a dictionary *)
Definition dict_get (d : Data) (k : string) (default : value) : value :=
  match d !! k with
  | Some v => v
  | None => default
  end.

(** [v.get(k, default)] on an arbitrary object *)
Definition py_get (v : value) (k : string) (default : value) : result value :=
  match v with
  | VDict d => ok (dict_get d k default)
  | _ => no_attribute v "get"
  end.

Definition upper_ascii (c : ascii) : ascii :=
  let n := nat_of_ascii c in
  if ((97 <=? n) && (n <=? 122))%nat then ascii_of_nat (n - 32) else c.


(** [s.upper()] on a string of ASCII characters.  Python puts the other
    characters in upper case by its Unicode tables, which are not
    modelled: here they are left as they are.  What is stated below about
    a string in upper case is stated of ASCII strings ([is_ascii]). *)
Fixpoint str_upper (s : string) : string :=
  match s with
  | EmptyString => EmptyString
  | String c s' => String (upper_ascii c) (str_upper s')
  end.

(** [s.replace(' ', '')] *)
Fixpoint remove_spaces (s : string) : string :=
  match s with
  | EmptyString => EmptyString
  | String c s' =>
      if bool_decide (c = " "%char) then remove_spaces s'
      else String c (remove_spaces s')
  end.

(** [v.upper()] on an arbitrary object *)
Definition py_upper (v : value) : result string :=
  match v with
  | VStr s => ok (str_upper s)
  | _ => no_attribute v "upper"
  end.

(** [s.startswith(c)] for a one-character prefix *)
Definition startswith (s : string) (c : ascii) : bool :=
  match s with
  | String c' _ => bool_decide (c' = c)
  | EmptyString => false
  end.

(** Strings are held in UTF-8, and a character of Python is one code
    point: a byte that continues a character of several bytes. *)
Definition is_continuation (c : ascii) : bool :=
  let n := nat_of_ascii c in ((128 <=? n) && (n <? 192))%nat.

(** [s[:n]]: the first [n] characters *)
Fixpoint str_prefix (n : nat) (s : string) : string :=
  match s with
  | EmptyString => EmptyString
  | String c s' =>
      if is_continuation c then String c (str_prefix n s')
      else
        match n with
        | O => EmptyString
        | S n' => String c (str_prefix n' s')
        end
  end.

Definition as_str (i : nat) (v : value) : result string :=
  match v with
  | VStr s => ok s
  | _ => raise (TypeError
           ("sequence item " +:+ pretty i +:+ ": expected str instance, "
            +:+ type_name v +:+ " found"))
  end.

Fixpoint join_from (i : nat) (sep : string) (parts : list value) : result string :=
  match parts with
  | [] => ok ""
  | [p] => as_str i p
  | p :: rest =>
      s ← as_str i p;
      t ← join_from (S i) sep rest;
      ok (s +:+ sep +:+ t)
  end.

(** [sep.join(parts)] *)
Definition py_join (sep : string) (parts : list value) : result string :=
  join_from 0 sep parts.

(** Keys of sets and dictionaries: hashable values up to Python equality
    ([True == 1 == 1.0]). *)
Inductive hkey :=
| HNone
| HNum (q : Qc)
| HStr (s : string).

#[global] Instance hkey_eq_dec : EqDecision hkey.
Proof. solve_decision. Defined.

#[global] Instance hkey_countable : Countable hkey.
Proof.
  refine (inj_countable'
    (λ k, match k with
          | HNone => inl ()
          | HNum q => inr (inl q)
          | HStr s => inr (inr s)
          end)
    (λ x, match x with
          | inl () => HNone
          | inr (inl q) => HNum q
          | inr (inr s) => HStr s
          end) _).
  by intros [].
Defined.

Definition Z2Qc (n : Z) : Qc := Q2Qc (inject_Z n).

(** [hash(v)]: which key a value is when put in a set or used as a
    dictionary key. *)
Definition to_hkey (v : value) : result hkey :=
  match v with
  | VNone => ok HNone
  | VBool b => ok (HNum (Z2Qc (if b then 1 else 0)))
  | VInt n => ok (HNum (Z2Qc n))
  | VFloat q => ok (HNum q)
  | VStr s => ok (HStr s)
  | VList _ | VDict _ =>
      raise (TypeError ("unhashable type: '" +:+ type_name v +:+ "'"))
  end.

Definition not_iterable {A} (v : value) : result A :=
  raise (TypeError ("'" +:+ type_name v +:+ "' object is not iterable")).

Fixpoint chars (s : string) : list value :=
  match s with
  | EmptyString => []
  | String c s' => VStr (String c EmptyString) :: chars s'
  end.

(** [iter(v)]: the elements a [for] loop visits. *)
Definition py_iter (v : value) : result (list value) :=
  match v with
  | VList l => ok l
  | VStr s => ok (chars s)
  | VDict d => ok (VStr <$> (map_to_list d).*1)
  | _ => not_iterable v
  end.

Fixpoint hkeys (l : list value) : result (gset hkey) :=
  match l with
  | [] => ok ∅
  | v :: l' =>
      k ← to_hkey v;
      s ← hkeys l';
      ok ({[k]} ∪ s)
  end.

(** [set(v)] *)
Definition py_set (v : value) : result (gset hkey) :=
  l ← py_iter v; hkeys l.

(** [v >= n] for an integer literal [n] *)
Definition py_ge_int (v : value) (n : Z) : result bool :=
  match v with
  | VBool b => ok (n <=? (if b then 1 else 0))
  | VInt m => ok (n <=? m)
  | VFloat q => ok (bool_decide (Z2Qc n ≤ q)%Qc)
  | _ => raise (TypeError
           ("'>=' not supported between instances of '" +:+ type_name v
            +:+ "' and 'int'"))
  end.

(** [v == s] for a string literal [s] *)
Definition py_eq_str (v : value) (s : string) : bool :=
  match v with
  | VStr t => bool_decide (t = s)
  | _ => false
  end.

(** [v in [s1, ..., sn]] for string literals *)
Definition py_in_strs (v : value) (l : list string) : bool :=
  existsb (py_eq_str v) l.

(** [v[k]] for a string key *)
Definition py_getitem (v : value) (k : string) : result value :=
  match v with
  | VDict d =>
      match d !! k with
      | Some x => ok x
      | None => raise (KeyError ("'" +:+ k +:+ "'"))
      end
  | VStr _ => raise (TypeError "string indices must be integers")
  | VList _ => raise (TypeError "list indices must be integers or slices, not str")
  | _ => raise (TypeError ("'" +:+ type_name v +:+ "' object is not subscriptable"))
  end.

(** [v[:n]] *)
Definition py_slice_to (n : nat) (v : value) : result value :=
  match v with
  | VList l => ok (VList (take n l))
  | VStr s => ok (VStr (str_prefix n s))
  | VDict _ => raise (TypeError "unhashable type: 'slice'")
  | _ => raise (TypeError ("'" +:+ type_name v +:+ "' object is not subscriptable"))
  end.

(** [a + b] on numbers, as [sum] uses it. *)
Definition py_add (a b : value) : result value :=
  let bad := raise (TypeError
    ("unsupported operand type(s) for +: '" +:+ type_name a +:+ "' and '"
     +:+ type_name b +:+ "'")) in
  let as_num v :=
    match v with
    | VBool b => Some (inl (if b then 1 else 0))
    | VInt n => Some (inl n)
    | VFloat q => Some (inr q)
    | _ => None
    end in
  match as_num a, as_num b with
  | Some (inl m), Some (inl n) => ok (VInt (m + n))
  | Some (inl m), Some (inr q) => ok (VFloat (Z2Qc m + q))
  | Some (inr p), Some (inl n) => ok (VFloat (p + Z2Qc n))
  | Some (inr p), Some (inr q) => ok (VFloat (p + q))
  | _, _ => bad
  end.

(** ** Configuration *)

Inductive SystemCode :=
| CRA | ISED | ISC | PSPC
| ON_ONBIS | QC_REQ | BC_REG | AB_REG
| CCAB | SUPPLY_NATION.

#[global] Instance SystemCode_eq_dec : EqDecision SystemCode.
Proof. solve_decision. Defined.

(** [system.value] *)
Definition system_value (system : SystemCode) : string :=
  match system with
  | CRA => "cra"
  | ISED => "ised"
  | ISC => "isc"
  | PSPC => "pspc"
  | ON_ONBIS => "on_onbis"
  | QC_REQ => "qc_req"
  | BC_REG => "bc_reg"
  | AB_REG => "ab_reg"
  | CCAB => "ccab"
  | SUPPLY_NATION => "supply_nation"
  end.

(** [system.name] *)
Definition system_name (system : SystemCode) : string :=
  match system with
  | CRA => "CRA"
  | ISED => "ISED"
  | ISC => "ISC"
  | PSPC => "PSPC"
  | ON_ONBIS => "ON_ONBIS"
  | QC_REQ => "QC_REQ"
  | BC_REG => "BC_REG"
  | AB_REG => "AB_REG"
  | CCAB => "CCAB"
  | SUPPLY_NATION => "SUPPLY_NATION"
  end.

(** [str(system)] and [repr(system)] *)
Definition system_str (system : SystemCode) : string :=
  "SystemCode." +:+ system_name system.
Definition system_repr (system : SystemCode) : string :=
  "<" +:+ system_str system +:+ ": '" +:+ system_value system +:+ "'>".

Record SystemEndpoint := {
  base_url : string;
  auth_type : string;
  timeout : Z;
  retry_attempts : Z;
  cache_ttl : Z;
}.

Definition mkEndpoint (url auth : string) : SystemEndpoint :=
  {| base_url := url; auth_type := auth;
     timeout := 30; retry_attempts := 3; cache_ttl := 3600 |}.

(** [self.endpoints], fixed by [__init__]. *)
Definition endpoints (system : SystemCode) : option SystemEndpoint :=
  match system with
  | CRA => Some {| base_url := "https://api.cra-arc.gc.ca/v1";
                   auth_type := "oauth2";
                   timeout := 60; retry_attempts := 3; cache_ttl := 3600 |}
  | ISED => Some (mkEndpoint "https://ised-isde.canada.ca/api/v2" "api_key")
  | ISC => Some (mkEndpoint
             "https://api.sac-isc.gc.ca/indigenous-verification/v1" "certificate")
  | PSPC => Some (mkEndpoint "https://buyandsell.gc.ca/api/v1" "oauth2")
  | ON_ONBIS => Some (mkEndpoint "https://www.appmjobs.com/onbis/api" "api_key")
  | QC_REQ => Some (mkEndpoint
                "https://www.registreentreprises.gouv.qc.ca/api" "api_key")
  | _ => None
  end.

(** [self.endpoints[system]] *)
Definition endpoints_getitem (system : SystemCode) : result SystemEndpoint :=
  match endpoints system with
  | Some e => ok e
  | None => raise (KeyError (system_repr system))
  end.

(** [timedelta(seconds=n)] in microseconds *)
Definition timedelta_seconds (n : Z) : Z := n * 1000000.

(** ** The verification record *)

(** The dictionary [verification_results]. The timestamp is the
    [datetime] whose [isoformat()] the source stores. *)
Record VerificationResult := {
  business_number : string;
  verification_timestamp : Z;
  systems_checked : list string;
  consolidated_data : gmap hkey Data;
  red_flags : list string;
  verification_score : Q;
}.

(** ** Collaborators: network and database *)

Record request := {
  req_method : string;
  req_url : string;
  req_headers : value;
  req_json : option value;
  req_timeout : Z;
}.

(** A statement handed to [db.execute] with its arguments. The JSON text
    of a snapshot is represented by the snapshot, and the SHA-256 digest
    of the serialised results by the results it digests. *)
Inductive db_call :=
| UpsertSnapshot (business_id system_code external_id : string)
    (data_snapshot : Data) (data_hash : VerificationResult)
    (last_sync_at : Z) (sync_status : string)
| InsertLog (business_id system_code action_type : string)
    (success : bool) (error_message : option string)
    (initiated_at completed_at : Z).

(** What the outside world answers. Each answer may depend on how many
    calls of its kind came before, so a registry or the database can
    fail at one moment and work at the next.  For a request, the answer
    is the decoded body ([response.json()], or [xmltodict.parse] of the
    text for the Quebec registry), or what the call raised. *)
Record World := {
  utcnow_at : nat → Z;
  http_at : nat → request → result value;
  db_at : nat → db_call → option exn;
}.

(** The integrator's mutable state, with the history of calls made. *)
Record state := {
  cache : gmap string (value * Z);
  clock_reads : nat;
  net_calls : list request;
  db_calls : list db_call;
}.

Definition initial_state : state :=
  {| cache := ∅; clock_reads := 0; net_calls := []; db_calls := [] |}.

(** ** The monad of the integrator's methods *)

Definition M (A : Type) : Type := state → result A * state.

#[global] Instance M_ret : MRet M := λ A a s, (inr a, s).
#[global] Instance M_bind : MBind M := λ A B f m s,
  match m s with
  | (inl e, s') => (inl e, s')
  | (inr a, s') => f a s'
  end.

Definition throw {A} (e : exn) : M A := λ s, (inl e, s).
Definition lift {A} (r : result A) : M A := λ s, (r, s).

(** [try: body  except Exception as e: handler e] *)
Definition try_except {A} (body : M A) (handler : exn → M A) : M A := λ s,
  match body s with
  | (inl e, s') => handler e s'
  | (inr a, s') => (inr a, s')
  end.

Definition get_cache : M (gmap string (value * Z)) := λ s, (inr (cache s), s).

Definition set_cache (k : string) (entry : value * Z) : M unit := λ s,
  (inr (), {| cache := <[k := entry]> (cache s);
              clock_reads := clock_reads s;
              net_calls := net_calls s;
              db_calls := db_calls s |}).

(** [data.get] is about to be called on a decoded body: anything but a
    dictionary has no such method. *)
Definition as_dict (data : value) : result Data :=
  match data with
  | VDict d => ok d
  | _ => no_attribute data "get"
  end.

(** [sum(c.get('value', 0) for c in contracts)] *)
Fixpoint sum_values (acc : value) (contracts : list value) : result value :=
  match contracts with
  | [] => ok acc
  | c :: rest =>
      v ← py_get c "value" (VInt 0);
      acc' ← py_add acc v;
      sum_values acc' rest
  end.

(** [[c for c in contracts if c.get('status') == status]] *)
Fixpoint with_status (status : string) (contracts : list value)
  : result (list value) :=
  match contracts with
  | [] => ok []
  | c :: rest =>
      s ← py_get c "status" VNone;
      rest' ← with_status status rest;
      ok (if py_eq_str s status then c :: rest' else rest')
  end.

Definition vlen {A} (l : list A) : value := VInt (Z.of_nat (length l)).

Section Integrator.

Variable W : World.

Definition utcnow : M Z := λ s,
  (inr (utcnow_at W (clock_reads s)),
   {| cache := cache s;
      clock_reads := S (clock_reads s);
      net_calls := net_calls s;
      db_calls := db_calls s |}).

(** One request through [self.session], decoded. *)
Definition http (r : request) : M value := λ s,
  (http_at W (length (net_calls s)) r,
   {| cache := cache s;
      clock_reads := clock_reads s;
      net_calls := net_calls s ++ [r];
      db_calls := db_calls s |}).

Definition session_get (url : string) (headers : value) (tmo : Z) : M value :=
  http {| req_method := "GET"; req_url := url; req_headers := headers;
          req_json := None; req_timeout := tmo |}.

Definition session_post (url : string) (headers : value) (body : value)
    (tmo : Z) : M value :=
  http {| req_method := "POST"; req_url := url; req_headers := headers;
          req_json := Some body; req_timeout := tmo |}.

(** [await self.db.execute(...)] *)
Definition db_execute (c : db_call) : M unit := λ s,
  (match db_at W (length (db_calls s)) c with
   | Some e => inl e
   | None => inr ()
   end,
   {| cache := cache s;
      clock_reads := clock_reads s;
      net_calls := net_calls s;
      db_calls := db_calls s ++ [c] |}).

(** ** Credentials *)

Definition _get_oauth_token (system : SystemCode) : M string :=
  mret "mock_oauth_token".

Definition _get_api_key (system : SystemCode) : M string :=
  mret "mock_api_key".

Definition _get_client_cert (system : SystemCode) : M string :=
  mret "mock_client_cert".

Definition _get_auth_headers (system : SystemCode) : M value :=
  endpoint ← lift (endpoints_getitem system);
  if bool_decide (auth_type endpoint = "oauth2") then
    token ← _get_oauth_token system;
    mret (VDict {[ "Authorization" := VStr ("Bearer " +:+ token) ]})
  else if bool_decide (auth_type endpoint = "api_key") then
    api_key ← _get_api_key system;
    mret (VDict {[ "X-API-Key" := VStr api_key ]})
  else if bool_decide (auth_type endpoint = "certificate") then
    cert ← _get_client_cert system;
    mret (VDict {[ "X-Client-Certificate" := VStr cert ]})
  else mret VNone.

Definition _encrypt_sensitive_data (data : value) : value := data.

(** ** Audit log *)

Definition _log_integration (system : SystemCode) (business_number : string)
    (success : bool) (error : option string) : M unit :=
  initiated_at ← utcnow;
  completed_at ← utcnow;
  db_execute (InsertLog business_number (system_value system) "verify"
                success error initiated_at completed_at).

(** ** Adapters *)

Definition _verify_cra (business_number : string) (endpoint : SystemEndpoint)
    (headers : value) : M value :=
  data ← session_get (base_url endpoint +:+ "/business/" +:+ business_number)
           headers (timeout endpoint);
  d ← lift (as_dict data);
  mret (VDict (list_to_map [
    ("system", VStr "CRA");
    ("business_status", dict_get d "businessStatus" VNone);
    ("registration_date", dict_get d "registrationDate" VNone);
    ("business_type", dict_get d "businessType" VNone);
    ("gst_registered", dict_get d "gstRegistered" VNone);
    ("payroll_account", dict_get d "hasPayrollAccount" VNone);
    ("tax_filing_status", dict_get d "taxFilingStatus" VNone);
    ("directors", _encrypt_sensitive_data (dict_get d "directors" (VList [])));
    ("mailing_address", dict_get d "mailingAddress" VNone);
    ("physical_address", dict_get d "physicalAddress" VNone)
  ])).

Definition _verify_ised (business_number : string) (endpoint : SystemEndpoint)
    (headers : value) : M value :=
  let corp_number := str_prefix 9 business_number in
  data ← session_get (base_url endpoint +:+ "/corporations/" +:+ corp_number)
           headers (timeout endpoint);
  d ← lift (as_dict data);
  mret (VDict (list_to_map [
    ("system", VStr "ISED");
    ("corporate_name", dict_get d "corporateName" VNone);
    ("incorporation_date", dict_get d "incorporationDate" VNone);
    ("jurisdiction", dict_get d "jurisdiction" VNone);
    ("corporate_status", dict_get d "status" VNone);
    ("share_structure", dict_get d "shareStructure" VNone);
    ("directors", _encrypt_sensitive_data (dict_get d "directors" (VList [])));
    ("officers", _encrypt_sensitive_data (dict_get d "officers" (VList [])));
    ("registered_office", dict_get d "registeredOffice" VNone)
  ])).

Definition _verify_isc (business_number : string) (endpoint : SystemEndpoint)
    (headers : value) : M value :=
  data ← session_post (base_url endpoint +:+ "/verify") headers
           (VDict {[ "businessNumber" := VStr business_number ]})
           (timeout endpoint);
  d ← lift (as_dict data);
  mret (VDict (list_to_map [
    ("system", VStr "ISC");
    ("indigenous_certification", dict_get d "certificationStatus" VNone);
    ("certification_number", dict_get d "certificationNumber" VNone);
    ("certification_date", dict_get d "certificationDate" VNone);
    ("indigenous_ownership_percentage",
       dict_get d "indigenousOwnershipPercentage" VNone);
    ("verified_owners",
       _encrypt_sensitive_data (dict_get d "verifiedOwners" (VList [])));
    ("community_affiliations", dict_get d "communityAffiliations" VNone);
    ("certification_type", dict_get d "certificationType" VNone)
  ])).

Definition _verify_pspc (business_number : string) (endpoint : SystemEndpoint)
    (headers : value) : M value :=
  data ← session_get
           (base_url endpoint +:+ "/suppliers/" +:+ business_number +:+ "/contracts")
           headers (timeout endpoint);
  d ← lift (as_dict data);
  let contracts := dict_get d "contracts" (VList []) in
  cs ← lift (py_iter contracts);
  total_value ← lift (sum_values (VInt 0) cs);
  completed_contracts ← lift (with_status "completed" cs);
  active_contracts ← lift (with_status "active" cs);
  recent ← lift (py_slice_to 10 contracts);
  mret (VDict (list_to_map [
    ("system", VStr "PSPC");
    ("supplier_status", dict_get d "supplierStatus" VNone);
    ("registration_date", dict_get d "registrationDate" VNone);
    ("total_contracts", vlen cs);
    ("total_contract_value", total_value);
    ("active_contracts", vlen active_contracts);
    ("completed_contracts", vlen completed_contracts);
    ("average_performance_rating", dict_get d "averagePerformanceRating" VNone);
    ("integrity_status", dict_get d "integrityStatus" VNone);
    ("security_clearance_level", dict_get d "securityClearanceLevel" VNone);
    ("recent_contracts", recent)
  ])).

Definition _verify_provincial (business_number : string) (system : SystemCode)
    (endpoint : SystemEndpoint) (headers : value) : M value :=
  match system with
  | ON_ONBIS =>
      data ← session_get
               (base_url endpoint +:+ "/corporation/" +:+ business_number)
               headers (timeout endpoint);
      d ← lift (as_dict data);
      mret (VDict (list_to_map [
        ("system", VStr "ON_ONBIS");
        ("ontario_corp_number", dict_get d "ontarioCorporationNumber" VNone);
        ("business_name", dict_get d "businessName" VNone);
        ("business_status", dict_get d "status" VNone);
        ("registration_date", dict_get d "registrationDate" VNone);
        ("business_activity", dict_get d "primaryActivity" VNone);
        ("registered_address", dict_get d "registeredAddress" VNone);
        ("directors",
           _encrypt_sensitive_data (dict_get d "directors" (VList [])))
      ]))
  | QC_REQ =>
      document ← session_get
               (base_url endpoint +:+ "/entreprise/" +:+ business_number)
               headers (timeout endpoint);
      data ← lift (py_getitem document "entreprise");
      d ← lift (as_dict data);
      mret (VDict (list_to_map [
        ("system", VStr "QC_REQ");
        ("neq", dict_get d "NEQ" VNone);
        ("nom_entreprise", dict_get d "nomEntreprise" VNone);
        ("statut", dict_get d "statut" VNone);
        ("date_immatriculation", dict_get d "dateImmatriculation" VNone);
        ("forme_juridique", dict_get d "formeJuridique" VNone);
        ("adresse_domicile", dict_get d "adresseDomicile" VNone);
        ("administrateurs",
           _encrypt_sensitive_data (dict_get d "administrateurs" (VList [])))
      ]))
  | _ => mret VNone
  end.

(** ** Cached per-system verification *)

(** Line 150: the key of a registry and a business in [self.cache]. *)
Definition cache_key (system : SystemCode) (business_number : string) : string :=
  system_value system +:+ ":" +:+ business_number.

(** Lines 161-172: the adapter of the registry. *)
Definition fetch (business_number : string) (system : SystemCode)
    (endpoint : SystemEndpoint) (headers : value) : M value :=
  match system with
  | CRA => _verify_cra business_number endpoint headers
  | ISED => _verify_ised business_number endpoint headers
  | ISC => _verify_isc business_number endpoint headers
  | PSPC => _verify_pspc business_number endpoint headers
  | ON_ONBIS | QC_REQ =>
      _verify_provincial business_number system endpoint headers
  | _ => throw (NotImplementedError
           ("System " +:+ system_str system +:+ " not implemented"))
  end.

(** Lines 151-154: the cached document, when there is one and it is
    young enough. *)
Definition cache_lookup (business_number : string) (system : SystemCode)
  : M (option value) :=
  c ← get_cache;
  match c !! cache_key system business_number with
  | Some (cached_data, cached_time) =>
      now ← utcnow;
      endpoint ← lift (endpoints_getitem system);
      if bool_decide (now - cached_time < timedelta_seconds (cache_ttl endpoint))
      then mret (Some cached_data)
      else mret None
  | None => mret None
  end.

Definition _verify_with_system (business_number : string) (system : SystemCode)
  : M value :=
  hit ← cache_lookup business_number system;
  match hit with
  | Some cached_data => mret cached_data
  | None =>
      endpoint ← lift (endpoints_getitem system);
      headers ← _get_auth_headers system;
      try_except
        (data ← fetch business_number system endpoint headers;
         now ← utcnow;
         set_cache (cache_key system business_number) (data, now);;
         _log_integration system business_number true None;;
         mret data)
        (λ e,
         _log_integration system business_number false (Some (str_exn e));;
         throw e)
  end.

(** ** Selection of the registries *)

Definition _determine_relevant_systems (business_number : string)
  : list SystemCode :=
  let systems := [CRA; ISED; ISC; PSPC] in
  if startswith business_number "1" then systems ++ [ON_ONBIS]
  else if startswith business_number "3" then systems ++ [QC_REQ]
  else systems.

(** ** Merging *)

Definition _merge_verification_data (consolidated : gmap hkey Data)
    (new_data : value) : result (gmap hkey Data) :=
  system ← py_get new_data "system" VNone;
  k ← to_hkey system;
  let section := default ∅ (consolidated !! k) in
  items ← as_dict new_data;
  ok (<[k := map_fold
              (λ key value acc,
                 if bool_decide (key ≠ "system") then <[key := value]> acc
                 else acc)
              section items]> consolidated).

(** ** Consistency rules *)

Definition _normalize_address (address : value) : result string :=
  street_number ← py_get address "streetNumber" (VStr "");
  street_name ← py_get address "streetName" (VStr "") ≫= py_upper;
  city ← py_get address "city" (VStr "") ≫= py_upper;
  province ← py_get address "province" (VStr "") ≫= py_upper;
  postal_code ← py_get address "postalCode" (VStr "") ≫= py_upper;
  py_join "|" [street_number; VStr street_name; VStr city; VStr province;
               VStr (remove_spaces postal_code)].

Definition address_flag : string :=
  "Inconsistent addresses between CRA and ISED records".

Definition status_flag (other_status system : string) : string :=
  "Business active with CRA but " +:+ other_status +:+ " with " +:+ system.

Definition ownership_flag : string :=
  "Majority Indigenous ownership but minority Indigenous directors".

(** [v in [s1, ..., sn]]: the literal that [v] equals, if any. *)
Definition member_of (v : value) (l : list string) : option string :=
  match v with
  | VStr s => if bool_decide (s ∈ l) then Some s else None
  | _ => None
  end.

(** Lines 384-391 *)
Definition check_addresses (consolidated : gmap hkey Data) (new_data : value)
    (system : SystemCode) : result (list string) :=
  match consolidated !! HStr "CRA" with
  | Some cra =>
      if bool_decide (system = ISED) then
        let cra_address := dict_get cra "physical_address" (VDict ∅) in
        ised_address ← py_get new_data "registered_office" (VDict ∅);
        if truthy cra_address && truthy ised_address then
          a ← _normalize_address cra_address;
          b ← _normalize_address ised_address;
          ok (if bool_decide (a ≠ b) then [address_flag] else [])
        else ok []
      else ok []
  | None => ok []
  end.

(** Lines 393-399 *)
Definition check_status (consolidated : gmap hkey Data) (new_data : value)
  : result (list string) :=
  match consolidated !! HStr "CRA" with
  | Some cra =>
      system ← py_get new_data "system" VNone;
      match member_of system ["ISED"; "ON_ONBIS"; "QC_REQ"] with
      | Some system_name =>
          let cra_status := dict_get cra "business_status" VNone in
          business_status ← py_get new_data "business_status" VNone;
          corporate_status ← py_get new_data "corporate_status" VNone;
          statut ← py_get new_data "statut" VNone;
          let other_status :=
            py_or (py_or business_status corporate_status) statut in
          match member_of other_status ["dissolved"; "inactive"; "fermée"] with
          | Some other =>
              ok (if py_eq_str cra_status "active"
                  then [status_flag other system_name] else [])
          | None => ok []
          end
      | None => ok []
      end
  | None => ok []
  end.

(** Lines 401-413 *)
Definition check_ownership (consolidated : gmap hkey Data)
  : result (list string) :=
  match consolidated !! HStr "ISC", consolidated !! HStr "ISED" with
  | Some isc, Some ised =>
      let isc_percentage :=
        dict_get isc "indigenous_ownership_percentage" (VInt 0) in
      majority ← py_ge_int isc_percentage 51;
      if (majority : bool) then
        verified_owners ← py_set (dict_get isc "verified_owners" (VList []));
        all_directors ← py_set (dict_get ised "directors" (VList []));
        if negb (bool_decide (verified_owners = ∅))
           && negb (bool_decide (all_directors = ∅)) then
          let overlap := size (verified_owners ∩ all_directors) in
          (* [overlap < len(all_directors) / 2], an exact comparison *)
          ok (if bool_decide (2 * overlap < size all_directors)%nat
              then [ownership_flag] else [])
        else ok []
      else ok []
  | _, _ => ok []
  end.

Definition _check_data_inconsistencies (consolidated : gmap hkey Data)
    (new_data : value) (system : SystemCode) : result (list string) :=
  addresses ← check_addresses consolidated new_data system;
  status ← check_status consolidated new_data;
  ownership ← check_ownership consolidated;
  ok (addresses ++ status ++ ownership).

(** ** Score

    Lines 417-432 in exact arithmetic.  [Binary64.score] below is the
    same computation in the doubles of the code; what rounding can change
    is stated of the doubles. *)

Definition _calculate_verification_score (results : VerificationResult) : Q :=
  let base_score := 1%Q in
  let expected_systems := 4 in
  let checked_systems := Z.of_nat (length (systems_checked results)) in
  let base_score :=
    (base_score - inject_Z (expected_systems - checked_systems) * (1 # 10))%Q in
  let base_score :=
    (base_score
     - inject_Z (Z.of_nat (length (red_flags results))) * (15 # 100))%Q in
  Qmax 0 (Qmin 1 base_score).

(** ** Persistence *)

Fixpoint for_each {A} (l : list A) (body : A → M unit) : M unit :=
  match l with
  | [] => mret ()
  | x :: rest => body x;; for_each rest body
  end.

Definition _store_verification_results (business_number : string)
    (results : VerificationResult) : M unit :=
  let data_hash := results in
  for_each (systems_checked results) (λ system,
    let snapshot := default ∅ (consolidated_data results !! HStr system) in
    now ← utcnow;
    db_execute (UpsertSnapshot business_number system business_number
                  snapshot data_hash now "success")).

(** ** The orchestrator *)

(** [asyncio.gather] with [return_exceptions=True]: every task runs to
    its end and hands back its document or what it raised, in the order
    of [tasks].  The tasks of one run work on different cache keys; they
    are run here one after the other. *)
Fixpoint run_all {A} (tasks : list (M A)) (s : state)
  : list (result A) * state :=
  match tasks with
  | [] => ([], s)
  | task :: rest =>
      let '(r, s1) := task s in
      let '(rs, s2) := run_all rest s1 in
      (r :: rs, s2)
  end.

Definition gather {A} (tasks : list (M A)) : M (list (result A)) := λ s,
  let '(rs, s') := run_all tasks s in (inr rs, s').

Definition failure_flag (system : SystemCode) (e : exn) : string :=
  "Failed to verify with " +:+ system_value system +:+ ": " +:+ str_exn e.

(** One turn of the loop of lines 121-134. *)
Definition process_result (results : VerificationResult)
    (system : SystemCode) (r : result value) : result VerificationResult :=
  match r with
  | inl e =>
      ok {| business_number := business_number results;
            verification_timestamp := verification_timestamp results;
            systems_checked := systems_checked results;
            consolidated_data := consolidated_data results;
            red_flags := red_flags results ++ [failure_flag system e];
            verification_score := verification_score results |}
  | inr new_data =>
      let checked := systems_checked results ++ [system_value system] in
      consolidated ← _merge_verification_data (consolidated_data results) new_data;
      inconsistencies ←
        _check_data_inconsistencies consolidated new_data system;
      ok {| business_number := business_number results;
            verification_timestamp := verification_timestamp results;
            systems_checked := checked;
            consolidated_data := consolidated;
            red_flags := red_flags results ++ inconsistencies;
            verification_score := verification_score results |}
  end.

Fixpoint process_results (results : VerificationResult)
    (l : list (SystemCode * result value)) : result VerificationResult :=
  match l with
  | [] => ok results
  | (system, r) :: rest =>
      results' ← process_result results system r;
      process_results results' rest
  end.

Definition with_score (results : VerificationResult) (score : Q)
  : VerificationResult :=
  {| business_number := business_number results;
     verification_timestamp := verification_timestamp results;
     systems_checked := systems_checked results;
     consolidated_data := consolidated_data results;
     red_flags := red_flags results;
     verification_score := score |}.

Definition verify_business_across_systems (business_number : string)
  : M VerificationResult :=
  timestamp ← utcnow;
  let verification_results :=
    {| business_number := business_number;
       verification_timestamp := timestamp;
       systems_checked := [];
       consolidated_data := ∅;
       red_flags := [];
       verification_score := 0 |} in
  let systems_to_check := _determine_relevant_systems business_number in
  let tasks := _verify_with_system business_number <$> systems_to_check in
  results ← gather tasks;
  verification_results ←
    lift (process_results verification_results (zip systems_to_check results));
  let verification_results :=
    with_score verification_results
      (_calculate_verification_score verification_results) in
  _store_verification_results business_number verification_results;;
  mret verification_results.

(** What each selected adapter handed back to [gather] in a run started
    in state [s], in the order of selection. *)
Definition adapter_outcomes (business_number : string) (s : state)
  : list (SystemCode * result value) :=
  let systems_to_check := _determine_relevant_systems business_number in
  zip systems_to_check
    (run_all (_verify_with_system business_number <$> systems_to_check)
       (utcnow s).2).1.

End Integrator.

(** ** The score in double precision

    Lines 421-432 in IEEE double precision, as a function of the two
    counts. *)
Module Binary64.

Definition prec : Z := 53.
Definition emax : Z := 1024.

(** [float(n)] *)
Definition of_Z (n : Z) : spec_float := binary_normalize prec emax n 0 false.

Definition mul := SFmul prec emax.
Definition sub := SFsub prec emax.
Definition div := SFdiv prec emax.

(** The literals [0.1] and [0.15]: the doubles nearest to 1/10 and to
    15/100. *)
Definition tenth : spec_float := div (of_Z 1) (of_Z 10).
Definition fifteen_hundredths : spec_float := div (of_Z 15) (of_Z 100).

(** [max(a, b)] and [min(a, b)] keep their first argument unless the
    second is strictly beyond it. *)
Definition py_max (a b : spec_float) : spec_float :=
  if SFltb a b then b else a.
Definition py_min (a b : spec_float) : spec_float :=
  if SFltb b a then b else a.

Definition score (checked flags : nat) : spec_float :=
  let base_score := of_Z 1 in
  let base_score :=
    sub base_score (mul (of_Z (4 - Z.of_nat checked)) tenth) in
  let base_score :=
    sub base_score (mul (of_Z (Z.of_nat flags)) fifteen_hundredths) in
  py_max (of_Z 0) (py_min (of_Z 1) base_score).

(** The rational a finite double denotes. *)
Definition to_Q (x : spec_float) : Q :=
  match x with
  | S754_finite s m e =>
      let v := (inject_Z (Z.pos m) * Qpower 2 e)%Q in
      if s then (- v)%Q else v
  | _ => 0%Q
  end.

End Binary64.

(** The registries whose adapter call succeeded, and those whose call
    failed with what they raised. *)
Fixpoint succeeded (l : list (SystemCode * result value)) : list SystemCode :=
  match l with
  | [] => []
  | (system, inr _) :: rest => system :: succeeded rest
  | (_, inl _) :: rest => succeeded rest
  end.

Fixpoint failures (l : list (SystemCode * result value))
  : list (SystemCode * exn) :=
  match l with
  | [] => []
  | (system, inl e) :: rest => (system, e) :: failures rest
  | (_, inr _) :: rest => failures rest
  end.

Fixpoint has_prefix (p s : string) : bool :=
  match p with
  | EmptyString => true
  | String a p' =>
      match s with
      | String b s' => Ascii.eqb a b && has_prefix p' s'
      | EmptyString => false
      end
  end.

(** A red flag that reports a failed adapter call. *)
Definition is_failure_flag (flag : string) : bool :=
  has_prefix "Failed to verify with " flag.

(** * Analytics

    [PatternDetectionAnalytics] computes its figures in SQL; what Python
    does with the rows is modelled here.  The rows a method computes on
    are typed as the SQL of its query types them: a COUNT is an integer,
    a SUM or an AVG over a numeric column is a number or NULL, and an
    aggregate without GROUP BY yields one row.  Rows that are only passed
    on are dictionaries.  Numbers are read as the rationals they stand
    for, as in the documents of the registries. *)
Module Analytics.

Inductive error :=
| ZeroDivisionError
| DatabaseError (e : exn).

Definition outcome (A : Type) : Type := (error + A)%type.

#[global] Instance outcome_ret : MRet outcome := λ A a, inr a.
#[global] Instance outcome_bind : MBind outcome := λ A B f m,
  match m with
  | inl e => inl e
  | inr a => f a
  end.

(** The row of [total_query] (lines 826-835). *)
Record SavingsTotals := {
  total_rejected : Z;
  total_prevented : option Q;
  avg_risk_score : option Q;
}.

(** The row of [overall_query] (lines 893-903). *)
Record OverallMetrics := {
  total_businesses : Z;
  verified_businesses : Z;
  overall_risk_score : option Q;
  total_verifications_performed : Z;
  avg_verification_time_minutes : option Q;
}.

(** What [self.db] answers to the four queries of the two reports. *)
Record Database := {
  monthly_savings : result (list Data);
  savings_totals : result SavingsTotals;
  department_metrics : result (list Data);
  overall_metrics : result OverallMetrics;
}.

(** [await self.db.fetch(...)], [await self.db.fetchrow(...)] *)
Definition await {A} (answer : result A) : outcome A :=
  match answer with
  | inl e => inl (DatabaseError e)
  | inr a => inr a
  end.

(** [float(x or 0)] *)
Definition float_or_zero (x : option Q) : Q :=
  match x with
  | Some q => if Qeq_bool q 0 then 0%Q else q
  | None => 0%Q
  end.

(** [a / b] on floats *)
Definition float_div (a b : Q) : outcome Q :=
  if Qeq_bool b 0 then inl ZeroDivisionError else inr (a / b)%Q.

Record SavingsReport := {
  analysis_date : Z;
  total_businesses_rejected : Z;
  total_contracts_prevented : Q;
  average_risk_score : Q;
  monthly_breakdown : list Data;
  projected_annual_savings : Q;
}.

Definition calculate_program_savings (db : Database) (utcnow : Z)
  : outcome SavingsReport :=
  savings_data ← await (monthly_savings db);
  totals ← await (savings_totals db);
  projected ←
    float_div (float_or_zero (total_prevented totals) * 12)%Q
      (inject_Z (Z.of_nat (length savings_data)));
  mret {| analysis_date := utcnow;
          total_businesses_rejected := total_rejected totals;
          total_contracts_prevented := float_or_zero (total_prevented totals);
          average_risk_score := float_or_zero (avg_risk_score totals);
          monthly_breakdown := savings_data;
          projected_annual_savings := projected |}.

Record ComplianceReport := {
  report_generated : Z;
  overall : OverallMetrics;
  department_breakdown : list Data;
  compliance_rate : Q;
}.

Definition generate_compliance_metrics (db : Database) (utcnow : Z)
  : outcome ComplianceReport :=
  department_data ← await (department_metrics db);
  overall ← await (overall_metrics db);
  ratio ← float_div (inject_Z (verified_businesses overall))
            (inject_Z (total_businesses overall));
  mret {| report_generated := utcnow;
          overall := overall;
          department_breakdown := department_data;
          compliance_rate := (ratio * 100)%Q |}.

End Analytics.

(** * Vocabulary of the statements *)

(** A state component that an action leaves alone. *)
Definition preserves {A X} (proj : state → X) (m : M A) : Prop :=
  ∀ s, proj (m s).2 = proj s.

(** The entry stored at [t0] is at least one TTL old at the next reading
    of the clock, respectively younger. *)
Definition expired (W : World) (ep : SystemEndpoint) (s : state) (t0 : Z) : Prop :=
  timedelta_seconds (cache_ttl ep) ≤ utcnow_at W (clock_reads s) - t0.

Definition fresh (W : World) (ep : SystemEndpoint) (s : state) (t0 : Z) : Prop :=
  utcnow_at W (clock_reads s) - t0 < timedelta_seconds (cache_ttl ep).

(** The state after one reading of the clock. *)
Definition tick (s : state) : state :=
  {| cache := cache s; clock_reads := S (clock_reads s);
     net_calls := net_calls s; db_calls := db_calls s |}.

(** What a call does once the cache has not answered. *)
Definition after_fetch (W : World) (bn : string) (sys : SystemCode)
    (r : result value) (s1 : state) : result value * state :=
  match r with
  | inr data =>
      let now := utcnow_at W (clock_reads s1) in
      let s2 := {| cache := <[cache_key sys bn := (data, now)]> (cache s1);
                   clock_reads := S (clock_reads s1);
                   net_calls := net_calls s1;
                   db_calls := db_calls s1 |} in
      match _log_integration W sys bn true None s2 with
      | (inr _, s3) => (inr data, s3)
      | (inl e, s3) =>
          match _log_integration W sys bn false (Some (str_exn e)) s3 with
          | (inr _, s4) => (inl e, s4)
          | (inl e2, s4) => (inl e2, s4)
          end
      end
  | inl e =>
      match _log_integration W sys bn false (Some (str_exn e)) s1 with
      | (inr _, s2) => (inl e, s2)
      | (inl e2, s2) => (inl e2, s2)
      end
  end.

(** A document that carries the name of the registry it came from. *)
Definition tagged (sys : SystemCode) (data : value) : Prop :=
  ∃ d, data = VDict d ∧ d !! "system" = Some (VStr (system_name sys)).

(** Every cached document is one its registry's adapter produced. *)
Definition cache_wf (c : gmap string (value * Z)) : Prop :=
  ∀ sys bn data t, c !! cache_key sys bn = Some (data, t) → tagged sys data.

(** The three kinds of flag the consistency rules can raise. *)
Definition is_inconsistency (flag : string) : Prop :=
  flag = address_flag ∨ (∃ other system, flag = status_flag other system)
  ∨ flag = ownership_flag.

(** Every document among the outcomes carries its registry's name. *)
Definition well_tagged (l : list (SystemCode * result value)) : Prop :=
  Forall (λ p, ∀ d, p.2 = inr d → tagged p.1 d) l.

(** The key of a registry in [consolidated_data]. *)
Definition tag (sys : SystemCode) : hkey := HStr (system_name sys).

(** The record a run starts from (lines 101-108). *)
Definition initial_results (bn : string) (timestamp : Z) : VerificationResult :=
  {| business_number := bn; verification_timestamp := timestamp;
     systems_checked := []; consolidated_data := ∅; red_flags := [];
     verification_score := 0 |}.

(** The score before it is clamped, as a function of the two counts. *)
Definition raw_score (checked flags : nat) : Q :=
  (1 - inject_Z (4 - Z.of_nat checked) * (1 # 10)
     - inject_Z (Z.of_nat flags) * (15 # 100))%Q.

(** [max(0.0, min(1.0, q))] *)
Definition clamp (q : Q) : Q := Qmax 0 (Qmin 1 q).

(** The double-precision score for these counts lies in [0, 1], does not
    grow with one more flag, and is within 1e-15 of the exact one. *)
Definition score_ok (checked flags : nat) : bool :=
  let x := Binary64.to_Q (Binary64.score checked flags) in
  let y := Binary64.to_Q (Binary64.score checked (S flags)) in
  Qle_bool 0 x && Qle_bool x 1 && Qle_bool y x
  && Qle_bool (Qabs (x - clamp (raw_score checked flags)))
       (1 # 1000000000000000).

(** The score in double precision of a result with these counts: without
    a flag and with four registries or more checked it is 1; with a flag
    it is at most 0.95 plus 1e-15, hence below 1. *)
Definition full_score_ok (checked flags : nat) : bool :=
  let x := Binary64.to_Q (Binary64.score checked flags) in
  match flags with
  | O => (checked <? 4)%nat || Qeq_bool x 1
  | S _ => Qle_bool x ((19 # 20) + (1 # 1000000000000000))
  end.










(** When the rule applies and what it then compares. *)
Definition ownership_mismatch (consolidated : gmap hkey Data) : Prop :=
  ∃ isc ised owners directors,
    consolidated !! HStr "ISC" = Some isc
    ∧ consolidated !! HStr "ISED" = Some ised
    ∧ py_ge_int (dict_get isc "indigenous_ownership_percentage" (VInt 0)) 51
      = inr true
    ∧ py_set (dict_get isc "verified_owners" (VList [])) = inr owners
    ∧ py_set (dict_get ised "directors" (VList [])) = inr directors
    ∧ owners ≠ ∅ ∧ directors ≠ ∅
    ∧ (2 * size (owners ∩ directors) < size directors)%nat.

(** The state of a run when [gather] has returned. *)
Definition state_after_gather (W : World) (bn : string) (s : state) : state :=
  (run_all (_verify_with_system W bn <$> _determine_relevant_systems bn)
     (utcnow W s).2).2.

(** The first of a series of database calls that fails, the series
    starting as the [n]-th call. *)
Fixpoint first_db_failure (W : World) (n : nat) (calls : list db_call)
  : option exn :=
  match calls with
  | [] => None
  | c :: rest =>
      match db_at W n c with
      | Some e => Some e
      | None => first_db_failure W (S n) rest
      end
  end.

(** The snapshot writes of a run, the clock having been read [clock]
    times before. *)
Definition snapshot_calls (W : World) (bn : string) (r : VerificationResult)
    (clock : nat) (systems : list string) : list db_call :=
  imap (λ i system,
          UpsertSnapshot bn system bn
            (default ∅ (consolidated_data r !! HStr system)) r
            (utcnow_at W (clock + i)) "success")
       systems.

(** The states the integrator can be in: fresh, or after any number of
    verification runs. *)
Inductive reachable (W : World) : state → Prop :=
| reachable_initial : reachable W initial_state
| reachable_verify s bn :
    reachable W s →
    reachable W (verify_business_across_systems W bn s).2.

(** The audit row of a call for a registry and a business, the clock
    having been read [clock] times before (lines 528-537). *)
Definition log_row (W : World) (bn : string) (sys : SystemCode)
    (success : bool) (error : option string) (clock : nat) : db_call :=
  InsertLog bn (system_value sys) "verify" success error
    (utcnow_at W clock) (utcnow_at W (S clock)).

(** The request of the PSPC adapter (lines 268-272). *)
Definition pspc_request (bn : string) (ep : SystemEndpoint) (headers : value)
  : request :=
  {| req_method := "GET";
     req_url := base_url ep +:+ "/suppliers/" +:+ bn +:+ "/contracts";
     req_headers := headers; req_json := None; req_timeout := timeout ep |}.

(** [c.get('status') == status] on a contract of the answer *)
Definition has_status (status : string) (c : value) : bool :=
  match c with
  | VDict d => py_eq_str (dict_get d "status" VNone) status
  | _ => false
  end.

(** The decoded bodies that the adapters of CRA, ISED, ISC and the two
    provinces turn into a document. *)
Definition accepted (sys : SystemCode) (body : value) : Prop :=
  match sys with
  | QC_REQ => ∃ d e, body = VDict d ∧ d !! "entreprise" = Some (VDict e)
  | _ => ∃ d, body = VDict d
  end.

(** A red flag of the status rule. *)
Definition is_status_flag (flag : string) : bool :=
  has_prefix "Business active with CRA but " flag.

(** Line 395: the first of the three status fields that is not empty. *)
Definition other_status (new_data : Data) : value :=
  py_or (py_or (dict_get new_data "business_status" VNone)
               (dict_get new_data "corporate_status" VNone))
        (dict_get new_data "statut" VNone).

(** CRA has the business as active while the document of a corporate
    registry called [name] gives [other] as its status. *)
Definition status_mismatch (consolidated : gmap hkey Data) (new_data : Data)
    (other name : string) : Prop :=
  ∃ cra,
    consolidated !! HStr "CRA" = Some cra
    ∧ dict_get cra "business_status" VNone = VStr "active"
    ∧ dict_get new_data "system" VNone = VStr name
    ∧ name ∈ ["ISED"; "ON_ONBIS"; "QC_REQ"]
    ∧ other_status new_data = VStr other
    ∧ other ∈ ["dissolved"; "inactive"; "fermée"].


(** How often the ownership flag occurs among the flags. *)
Definition ownership_hits (flags : list string) : nat :=
  length (List.filter (λ flag, bool_decide (flag = ownership_flag)) flags).

(** The cache holds no document of the registry for the business. *)
Definition uncached (s : state) (bn : string) (sys : SystemCode) : bool :=
  match cache s !! cache_key sys bn with
  | Some _ => false
  | None => true
  end.

(** The documents cached for the business are less than an hour old
    whenever the clock is read. *)
Definition lasting (W : World) (bn : string) (systems : list SystemCode)
    (s : state) : Prop :=
  ∀ sys d t n, sys ∈ systems →
    cache s !! cache_key sys bn = Some (d, t) →
    utcnow_at W n - t < 3600000000.

(** No two readings of the clock are an hour apart. *)
Definition short_session (W : World) : Prop :=
  ∀ i j, utcnow_at W j - utcnow_at W i < 3600000000.

(** Every cached document carries a time that was read from the clock. *)
Definition stamped (W : World) (c : gmap string (value * Z)) : Prop :=
  ∀ k d t, c !! k = Some (d, t) → ∃ i, t = utcnow_at W i.

(** The database refuses every statement. *)
Definition db_down (W : World) : Prop := ∀ n c, is_Some (db_at W n c).

(** An exception that the database raised. *)
Definition db_failure (W : World) (e : exn) : Prop :=
  ∃ n c, db_at W n c = Some e.

(** ** Concrete worlds and runs *)

(** A JSON object. *)
Definition doc (fields : list (string * value)) : value :=
  VDict (list_to_map fields).

Definition address (number name city province postal : string) : value :=
  doc [("streetNumber", VStr number); ("streetName", VStr name);
       ("city", VStr city); ("province", VStr province);
       ("postalCode", VStr postal)].

(** A list of identifiers of persons. *)
Definition ids (l : list string) : value := VList (VStr <$> l).

(** The registry a request is addressed to. *)
Definition registry_of (r : request) : option SystemCode :=
  List.find
    (λ system,
       match endpoints system with
       | Some endpoint => has_prefix (base_url endpoint) (req_url r)
       | None => false
       end)
    [CRA; ISED; ISC; PSPC; ON_ONBIS; QC_REQ].

Definition timed_out : result value := inl (CollaboratorError "timeout").

(** A world whose registries always give the same answer, whose clock
    advances one millisecond per reading, and whose database answers
    [db]. *)
Definition world_of (answers : SystemCode → result value)
    (db : db_call → option exn) : World :=
  {| utcnow_at := λ n, Z.of_nat n * 1000;
     http_at := λ _ r,
       match registry_of r with
       | Some system => answers system
       | None => timed_out
       end;
     db_at := λ _, db |}.

Definition db_up : db_call → option exn := λ _, None.

(** The business number of the usage example in [main]. *)
Definition bn_example : string := "123456789RC0001".

(** No registry can be reached. *)
Definition world_down : World := world_of (λ _, timed_out) db_up.

(** CRA and ISED know the business and disagree on its status; the other
    registries time out. *)
Definition world_partial : World :=
  world_of
    (λ system,
       match system with
       | CRA => inr (doc [("businessStatus", VStr "active");
                          ("physicalAddress",
                           address "100" "Main St" "Ottawa" "on" "k1a 0b1")])
       | ISED => inr (doc [("status", VStr "dissolved");
                           ("registeredOffice",
                            address "100" "MAIN ST" "OTTAWA" "ON" "K1A0B1")])
       | _ => timed_out
       end)
    db_up.

(** What a run handed back, when it returned. *)
Definition returned (out : result VerificationResult * state)
  : VerificationResult :=
  match out.1 with
  | inr r => r
  | inl _ => initial_results "" 0
  end.

Definition run_partial : result VerificationResult * state :=
  verify_business_across_systems world_partial bn_example initial_state.

Definition run_down : result VerificationResult * state :=
  verify_business_across_systems world_down bn_example initial_state.

(** A registry that answers a lookup of an unknown business with an
    error body, as an HTTP 404 with a JSON body reads through
    [response.json()]. *)
Definition world_not_found : World :=
  world_of
    (λ system,
       match system with
       | CRA => inr (doc [("error", VStr "Business not found")])
       | _ => timed_out
       end)
    db_up.

Definition run_not_found : result VerificationResult * state :=
  verify_business_across_systems world_not_found bn_example initial_state.

(** The same lookup answered by raising. *)
Definition world_not_found_raised : World :=
  world_of
    (λ system,
       match system with
       | CRA => inl (CollaboratorError "404, message='Not Found'")
       | _ => timed_out
       end)
    db_up.

Definition run_not_found_raised : result VerificationResult * state :=
  verify_business_across_systems world_not_found_raised bn_example initial_state.

(** Two spellings of one street that differ in blanks only. *)
Definition cra_address_blanks : value :=
  address "100" "Main  St" "Ottawa" "ON" "K1A 0B1".
Definition ised_address_blanks : value :=
  address "100" "Main St" "Ottawa" "ON" "K1A 0B1".

Definition world_blanks : World :=
  world_of
    (λ system,
       match system with
       | CRA => inr (doc [("physicalAddress", cra_address_blanks)])
       | ISED => inr (doc [("registeredOffice", ised_address_blanks)])
       | _ => timed_out
       end)
    db_up.

Definition run_blanks : result VerificationResult * state :=
  verify_business_across_systems world_blanks bn_example initial_state.

(** CRA holds an empty address record for the business. *)
Definition world_empty_address : World :=
  world_of
    (λ system,
       match system with
       | CRA => inr (doc [("physicalAddress", doc [])])
       | ISED => inr (doc [("registeredOffice", ised_address_blanks)])
       | _ => timed_out
       end)
    db_up.

Definition run_empty_address : result VerificationResult * state :=
  verify_business_across_systems world_empty_address bn_example initial_state.








(** Every registry knows the business and the records agree. *)
Definition healthy (system : SystemCode) : result value :=
  match system with
  | CRA => inr (doc [("businessStatus", VStr "active")])
  | ISED => inr (doc [("status", VStr "active");
                      ("directors", ids ["person-1"])])
  | ISC => inr (doc [("indigenousOwnershipPercentage", VInt 100);
                     ("verifiedOwners", ids ["person-1"])])
  | _ => inr (doc [])
  end.

Definition world_healthy : World := world_of healthy db_up.

Definition run_healthy : result VerificationResult * state :=
  verify_business_across_systems world_healthy bn_example initial_state.

(** Every registry answers with an empty object. *)
Definition world_bare : World := world_of (λ _, inr (doc [])) db_up.

Definition db_refuses : exn := CollaboratorError "connection refused".

(** Registries answer, the audit log can be written, snapshots cannot. *)
Definition world_snapshots_fail : World :=
  world_of healthy
    (λ c, match c with
          | UpsertSnapshot _ _ _ _ _ _ _ => Some db_refuses
          | InsertLog _ _ _ _ _ _ _ => None
          end).

Definition run_snapshots_fail : result VerificationResult * state :=
  verify_business_across_systems world_snapshots_fail bn_example initial_state.

(** Registries answer, the database is down altogether. *)
Definition world_db_down : World := world_of healthy (λ _, Some db_refuses).

Definition run_db_down : result VerificationResult * state :=
  verify_business_across_systems world_db_down bn_example initial_state.

(** A state in which the CRA document of the example business was cached
    at time 0. *)
Definition cached_document : value := doc [("system", VStr "CRA")].

Definition state_cached : state :=
  {| cache := {[ cache_key CRA bn_example := (cached_document, 0) ]};
     clock_reads := 0; net_calls := []; db_calls := [] |}.

(** The same registries, read when exactly one hour has gone by. *)
Definition world_later : World :=
  {| utcnow_at := λ n, 3600000000 + Z.of_nat n * 1000;
     http_at := http_at world_partial;
     db_at := db_at world_partial |}.

(** [needle] occurs in [flag]. *)
Fixpoint mentions (needle flag : string) : bool :=
  has_prefix needle flag
  || match flag with
     | String _ rest => mentions needle rest
     | EmptyString => false
     end.



(** PSPC lists three contracts: one active, one completed, one without
    status. *)
Definition world_contracts : World :=
  world_of
    (λ system,
       match system with
       | PSPC =>
           inr (doc [("contracts",
                      VList [doc [("status", VStr "active"); ("value", VInt 5)];
                             doc [("status", VStr "completed"); ("value", VInt 7)];
                             doc [("value", VInt 1)]])])
       | _ => timed_out
       end)
    db_up.

(** The registries of [world_partial] with a clock that stands still. *)
Definition world_frozen : World :=
  {| utcnow_at := λ _, 0;
     http_at := http_at world_partial;
     db_at := db_at world_partial |}.

(** The endpoints of CRA and PSPC as [__init__] configures them. *)
Definition cra_endpoint : SystemEndpoint :=
  {| base_url := "https://api.cra-arc.gc.ca/v1"; auth_type := "oauth2";
     timeout := 60; retry_attempts := 3; cache_ttl := 3600 |}.

Definition pspc_endpoint : SystemEndpoint :=
  mkEndpoint "https://buyandsell.gc.ca/api/v1" "oauth2".

(** The request of the CRA adapter for the example business. *)
Definition cra_request (headers : value) : request :=
  {| req_method := "GET";
     req_url := "https://api.cra-arc.gc.ca/v1/business/123456789RC0001";
     req_headers := headers; req_json := None; req_timeout := 60 |}.

(** What a call handed back, when it returned. *)
Definition document (out : result value * state) : value :=
  match out.1 with
  | inr d => d
  | inl _ => VNone
  end.

(** CRA has the business as active, ISED's record says dissolved. *)
Definition consolidated_active : gmap hkey Data :=
  {[ HStr "CRA" := {[ "business_status" := VStr "active" ]} ]}.

Definition ised_dissolved : Data :=
  list_to_map [("system", VStr "ISED"); ("corporate_status", VStr "dissolved")].

(** A database without any flagged session or active business. *)
Definition no_flagged_month : Analytics.Database :=
  {| Analytics.monthly_savings := inr [];
     Analytics.savings_totals :=
       inr {| Analytics.total_rejected := 0;
              Analytics.total_prevented := None;
              Analytics.avg_risk_score := None |};
     Analytics.department_metrics := inr [];
     Analytics.overall_metrics :=
       inr {| Analytics.total_businesses := 0;
              Analytics.verified_businesses := 0;
              Analytics.overall_risk_score := None;
              Analytics.total_verifications_performed := 0;
              Analytics.avg_verification_time_minutes := None |} |}.

(** Two months with flagged sessions; six of eight businesses verified. *)
Definition two_flagged_months : Analytics.Database :=
  {| Analytics.monthly_savings :=
       inr [ {[ "month" := VStr "2024-02" ]}; {[ "month" := VStr "2024-01" ]} ];
     Analytics.savings_totals :=
       inr {| Analytics.total_rejected := 3;
              Analytics.total_prevented := Some (5000000 # 1);
              Analytics.avg_risk_score := Some (4 # 5) |};
     Analytics.department_metrics := inr [];
     Analytics.overall_metrics :=
       inr {| Analytics.total_businesses := 8;
              Analytics.verified_businesses := 6;
              Analytics.overall_risk_score := Some (1 # 4);
              Analytics.total_verifications_performed := 11;
              Analytics.avg_verification_time_minutes := Some (12 # 1) |} |}.

(** * Proofs *)

#[global] Arguments _log_integration : simpl never.
#[global] Arguments fetch : simpl never.

(** ** Reasoning about the monad *)

Lemma bind_inr {A B} (m : M A) (f : A → M B) s b s' :
  (m ≫= f) s = (inr b, s') →
  ∃ a s1, m s = (inr a, s1) ∧ f a s1 = (inr b, s').
Proof.
  unfold mbind, M_bind. destruct (m s) as [[e|a] s1]; [done|]. eauto.
Qed.

Lemma bind_inl {A B} (m : M A) (f : A → M B) s e s' :
  (m ≫= f) s = (inl e, s') →
  m s = (inl e, s') ∨ ∃ a s1, m s = (inr a, s1) ∧ f a s1 = (inl e, s').
Proof.
  unfold mbind, M_bind. destruct (m s) as [[e1|a] s1]; intros H; [left; by simplify_eq|right; eauto].
Qed.

Lemma bind_run {A B} (m : M A) (f : A → M B) s :
  (m ≫= f) s =
  match m s with
  | (inl e, s1) => (inl e, s1)
  | (inr a, s1) => f a s1
  end.
Proof. reflexivity. Qed.

Lemma result_bind_inr {A B} (m : result A) (f : A → result B) b :
  m ≫= f = inr b → ∃ a, m = inr a ∧ f a = inr b.
Proof. destruct m; [done|]. simpl. eauto. Qed.

Lemma preserves_ret {A X} (proj : state → X) (a : A) : preserves proj (mret a).
Proof. by intros s. Qed.

Lemma preserves_throw {A X} (proj : state → X) e : preserves proj (@throw A e).
Proof. by intros s. Qed.

Lemma preserves_lift {A X} (proj : state → X) (r : result A) : preserves proj (lift r).
Proof. by intros s. Qed.

Lemma preserves_bind {A B X} (proj : state → X) (m : M A) (f : A → M B) :
  preserves proj m → (∀ a, preserves proj (f a)) → preserves proj (m ≫= f).
Proof.
  intros Hm Hf s. rewrite bind_run. specialize (Hm s).
  destruct (m s) as [[e|a] s1]; simpl in *; [done|].
  by rewrite Hf.
Qed.

Lemma preserves_try {A X} (proj : state → X) (m : M A) (h : exn → M A) :
  preserves proj m → (∀ e, preserves proj (h e)) → preserves proj (try_except m h).
Proof.
  intros Hm Hh s. unfold try_except. specialize (Hm s).
  destruct (m s) as [[e|a] s1]; simpl in *; [|done].
  by rewrite Hh.
Qed.

Create HintDb frame discriminated.
#[export] Hint Resolve preserves_ret preserves_throw preserves_lift : frame.

Ltac frame :=
  repeat first
    [ apply preserves_ret | apply preserves_throw | apply preserves_lift
    | apply preserves_bind; [|intros ?]
    | apply preserves_try; [|intros ?]
    | progress intros
    | match goal with
      | |- preserves _ (match ?x with _ => _ end) => destruct x
      | |- preserves _ (if ?b then _ else _) => destruct b
      | |- preserves _ (let '(_, _) := ?x in _) => destruct x
      end
    | solve [eauto with frame] ].

Lemma utcnow_cache W : preserves cache (utcnow W).
Proof. by intros s. Qed.
Lemma utcnow_net W : preserves net_calls (utcnow W).
Proof. by intros s. Qed.
Lemma utcnow_db W : preserves db_calls (utcnow W).
Proof. by intros s. Qed.
Lemma http_cache W r : preserves cache (http W r).
Proof. by intros s. Qed.
Lemma http_db W r : preserves db_calls (http W r).
Proof. by intros s. Qed.
Lemma db_execute_cache W c : preserves cache (db_execute W c).
Proof. by intros s. Qed.
Lemma db_execute_net W c : preserves net_calls (db_execute W c).
Proof. by intros s. Qed.
Lemma get_cache_any {X} (proj : state → X) : preserves proj get_cache.
Proof. by intros s. Qed.
Lemma set_cache_net k e : preserves net_calls (set_cache k e).
Proof. by intros s. Qed.
Lemma set_cache_db k e : preserves db_calls (set_cache k e).
Proof. by intros s. Qed.
#[export] Hint Resolve utcnow_cache utcnow_net utcnow_db http_cache http_db
  db_execute_cache db_execute_net get_cache_any set_cache_net set_cache_db : frame.

Lemma log_integration_cache W sys bn ok err :
  preserves cache (_log_integration W sys bn ok err).
Proof. unfold _log_integration. frame. Qed.
Lemma log_integration_net W sys bn ok err :
  preserves net_calls (_log_integration W sys bn ok err).
Proof. unfold _log_integration. frame. Qed.
#[export] Hint Resolve log_integration_cache log_integration_net : frame.

Lemma get_auth_headers_any {X} (proj : state → X) sys :
  preserves proj (_get_auth_headers sys).
Proof. unfold _get_auth_headers, _get_oauth_token, _get_api_key, _get_client_cert. frame. Qed.
#[export] Hint Resolve get_auth_headers_any : frame.

Lemma fetch_cache W bn sys ep h : preserves cache (fetch W bn sys ep h).
Proof.
  unfold fetch, _verify_cra, _verify_ised, _verify_isc, _verify_pspc,
    _verify_provincial, session_get, session_post.
  destruct sys; frame.
Qed.

(** ** The result cache *)

Lemma get_auth_headers_run sys ep s :
  endpoints sys = Some ep →
  ∃ h, _get_auth_headers sys s = (inr h, s).
Proof.
  intros Hep. unfold _get_auth_headers, endpoints_getitem. rewrite Hep.
  unfold lift, _get_oauth_token, _get_api_key, _get_client_cert.
  rewrite bind_run. simpl.
  repeat case_bool_decide; eauto.
Qed.

(** Each adapter of a configured registry sends one request. *)
Lemma fetch_net W bn sys ep h s :
  endpoints sys = Some ep →
  ∃ req, net_calls (fetch W bn sys ep h s).2 = net_calls s ++ [req].
Proof.
  intros Hep.
  destruct sys; try discriminate Hep; unfold fetch;
    unfold _verify_cra, _verify_ised, _verify_isc, _verify_pspc,
      _verify_provincial, session_get, session_post;
    rewrite bind_run;
    match goal with
    | |- context [http W ?r s] =>
        exists r; unfold http at 1;
        destruct (http_at W (length (net_calls s)) r) as [e|data]; [done|]
    end.
  all: match goal with
       | |- net_calls (?m ?s1).2 = _ =>
           change (net_calls s ++ [_]) with (net_calls s1);
           assert (preserves net_calls m) as Hp by frame; apply Hp
       end.
Qed.

Lemma cache_lookup_hit W bn sys ep s d t0 :
  endpoints sys = Some ep →
  cache s !! cache_key sys bn = Some (d, t0) →
  fresh W ep s t0 →
  cache_lookup W bn sys s = (inr (Some d), tick s).
Proof.
  intros Hep Hc Hf. unfold cache_lookup, get_cache. rewrite bind_run. simpl.
  rewrite Hc. rewrite bind_run. simpl. rewrite bind_run.
  unfold lift, endpoints_getitem. rewrite Hep. simpl.
  rewrite bool_decide_true; done.
Qed.

Lemma cache_lookup_expired W bn sys ep s d t0 :
  endpoints sys = Some ep →
  cache s !! cache_key sys bn = Some (d, t0) →
  expired W ep s t0 →
  cache_lookup W bn sys s = (inr None, tick s).
Proof.
  intros Hep Hc Hf. unfold cache_lookup, get_cache. rewrite bind_run. simpl.
  rewrite Hc. rewrite bind_run. simpl. rewrite bind_run.
  unfold lift, endpoints_getitem. rewrite Hep. simpl.
  rewrite bool_decide_false; [done|]. unfold expired in Hf. lia.
Qed.

Lemma cache_lookup_absent W bn sys s :
  cache s !! cache_key sys bn = None →
  cache_lookup W bn sys s = (inr None, s).
Proof.
  intros Hc. unfold cache_lookup, get_cache. rewrite bind_run. simpl.
  by rewrite Hc.
Qed.

Lemma verify_with_system_miss W bn sys ep s s0 h :
  endpoints sys = Some ep →
  cache_lookup W bn sys s = (inr None, s0) →
  _get_auth_headers sys s0 = (inr h, s0) →
  _verify_with_system W bn sys s =
  after_fetch W bn sys (fetch W bn sys ep h s0).1 (fetch W bn sys ep h s0).2.
Proof.
  intros Hep Hl Hh. unfold _verify_with_system. rewrite bind_run, Hl.
  rewrite bind_run. unfold lift at 1, endpoints_getitem. rewrite Hep. simpl.
  rewrite bind_run, Hh. unfold try_except. rewrite bind_run.
  destruct (fetch W bn sys ep h s0) as [[e|data] s1]; cbn [fst snd after_fetch].
  - rewrite bind_run. by destruct (_log_integration _ _ _ _ _ _) as [[?|?] ?].
  - rewrite !bind_run. cbn [utcnow set_cache]. rewrite bind_run.
    cbn [utcnow set_cache cache clock_reads net_calls db_calls]. rewrite bind_run.
    destruct (_log_integration W sys bn true None _) as [[e|[]] s3]; [|done].
    rewrite bind_run. by destruct (_log_integration _ _ _ _ _ _) as [[?|?] ?].
Qed.

Lemma verify_with_system_hit W bn sys s d s0 :
  cache_lookup W bn sys s = (inr (Some d), s0) →
  _verify_with_system W bn sys s = (inr d, s0).
Proof. intros Hl. unfold _verify_with_system. by rewrite bind_run, Hl. Qed.

Lemma after_fetch_net W bn sys r s1 :
  net_calls (after_fetch W bn sys r s1).2 = net_calls s1.
Proof.
  unfold after_fetch. destruct r as [e|data].
  - pose proof (log_integration_net W sys bn false (Some (str_exn e)) s1) as H1.
    destruct (_log_integration _ _ _ _ _ _) as [[?|?] ?]; exact H1.
  - match goal with |- context [_log_integration W sys bn true None ?s2] =>
      pose proof (log_integration_net W sys bn true None s2) as H1;
      destruct (_log_integration W sys bn true None s2) as [[e|[]] s3] end;
      [|exact H1].
    pose proof (log_integration_net W sys bn false (Some (str_exn e)) s3) as H2.
    destruct (_log_integration _ _ _ _ _ _) as [[?|?] ?]; simpl in *; congruence.
Qed.

Lemma after_fetch_cache W bn sys r s1 :
  cache (after_fetch W bn sys r s1).2 =
  match r with
  | inr data => <[cache_key sys bn := (data, utcnow_at W (clock_reads s1))]> (cache s1)
  | inl _ => cache s1
  end.
Proof.
  unfold after_fetch. destruct r as [e|data].
  - pose proof (log_integration_cache W sys bn false (Some (str_exn e)) s1) as H1.
    destruct (_log_integration _ _ _ _ _ _) as [[?|?] ?]; exact H1.
  - match goal with |- context [_log_integration W sys bn true None ?s2] =>
      pose proof (log_integration_cache W sys bn true None s2) as H1;
      destruct (_log_integration W sys bn true None s2) as [[e|[]] s3] end;
      [|exact H1].
    pose proof (log_integration_cache W sys bn false (Some (str_exn e)) s3) as H2.
    destruct (_log_integration _ _ _ _ _ _) as [[?|?] ?]; simpl in *; congruence.
Qed.

Lemma after_fetch_result W bn sys r s1 :
  match (after_fetch W bn sys r s1).1 with
  | inr d => r = inr d
  | inl _ => True
  end.
Proof.
  unfold after_fetch. destruct r as [e|data].
  - by destruct (_log_integration _ _ _ _ _ _) as [[?|?] ?].
  - destruct (_log_integration W sys bn true None _) as [[e|[]] s3]; [|done].
    by destruct (_log_integration _ _ _ _ _ _) as [[?|?] ?].
Qed.

Lemma after_fetch_failure W bn sys e s1 :
  ∃ e', (after_fetch W bn sys (inl e) s1).1 = inl e'.
Proof.
  unfold after_fetch.
  destruct (_log_integration _ _ _ _ _ _) as [[?|?] ?]; eauto.
Qed.

Lemma http_clock W r : preserves clock_reads (http W r).
Proof. by intros s. Qed.
#[export] Hint Resolve http_clock : frame.

Lemma fetch_clock W bn sys ep h : preserves clock_reads (fetch W bn sys ep h).
Proof.
  unfold fetch, _verify_cra, _verify_ised, _verify_isc, _verify_pspc,
    _verify_provincial, session_get, session_post.
  destruct sys; frame.
Qed.

Lemma cache_lookup_cache W bn sys : preserves cache (cache_lookup W bn sys).
Proof. unfold cache_lookup. frame. Qed.

Lemma cache_lookup_net W bn sys : preserves net_calls (cache_lookup W bn sys).
Proof. unfold cache_lookup. frame. Qed.


(** C4. With an entry cached at [t0] for the key of a configured
    registry: while strictly less than the TTL has elapsed the cached
    document is returned, nothing is sent and the cache is untouched;
    once the TTL has elapsed exactly one request is sent, what is
    returned (if anything) is the fetched document and never the cached
    one, a fetched document replaces the entry with the time read after
    the fetch, and a failed fetch leaves the cache as it was and
    raises. *)
Theorem cache_entry_served_only_within_ttl W bn sys ep s d t0 :
  endpoints sys = Some ep →
  cache s !! cache_key sys bn = Some (d, t0) →
  let now := utcnow_at W (clock_reads s) in
  let ttl := timedelta_seconds (cache_ttl ep) in
  let out := _verify_with_system W bn sys s in
  (now - t0 < ttl →
     out.1 = inr d ∧ net_calls out.2 = net_calls s ∧ cache out.2 = cache s)
  ∧ (ttl ≤ now - t0 →
     ∃ headers,
       _get_auth_headers sys (tick s) = (inr headers, tick s) ∧
       let fetched := (fetch W bn sys ep headers (tick s)).1 in
       (∃ req, net_calls out.2 = net_calls s ++ [req])
       ∧ (∀ x, out.1 = inr x → fetched = inr x)
       ∧ (∀ data, fetched = inr data →
            cache out.2 =
            <[cache_key sys bn := (data, utcnow_at W (S (clock_reads s)))]> (cache s))
       ∧ (∀ e, fetched = inl e → cache out.2 = cache s ∧ ∃ e', out.1 = inl e')).
Proof.
  intros Hep Hc now ttl out. split.
  - intros Hfresh. subst out.
    rewrite (verify_with_system_hit W bn sys s d (tick s)); [done|].
    by eapply cache_lookup_hit.
  - intros Hold.
    pose proof (cache_lookup_expired W bn sys ep s d t0 Hep Hc Hold) as Hl.
    destruct (get_auth_headers_run sys ep (tick s) Hep) as [h Hh].
    exists h. split; [done|]. subst out.
    rewrite (verify_with_system_miss W bn sys ep s (tick s) h Hep Hl Hh).
    pose proof (fetch_cache W bn sys ep h (tick s)) as Hfc.
    pose proof (fetch_clock W bn sys ep h (tick s)) as Hfk.
    destruct (fetch_net W bn sys ep h (tick s) Hep) as [req Hfn].
    pose proof (after_fetch_result W bn sys (fetch W bn sys ep h (tick s)).1
                  (fetch W bn sys ep h (tick s)).2) as Hres.
    rewrite after_fetch_net, after_fetch_cache.
    destruct (fetch W bn sys ep h (tick s)) as [r s1]; simpl in *.
    split; [eauto|]. split; [|split].
    + intros x Hx. rewrite Hx in Hres. done.
    + intros data ->. by rewrite Hfc, Hfk.
    + intros e ->. split; [done|]. apply after_fetch_failure.
Qed.


(** ** What adapters return *)

Lemma lift_run {A} (r : result A) s : lift r s = (r, s).
Proof. done. Qed.

Ltac run_in H :=
  repeat first
    [ rewrite bind_run in H
    | rewrite lift_run in H
    | progress cbn [session_get session_post http fst snd mret M_ret] in H
    | match type of H with
      | context [match ?x with _ => _ end] =>
          lazymatch x with
          | context [match _ with _ => _ end] => fail
          | _ => destruct x eqn:?
          end
      end
    | discriminate H ].

Lemma fetch_tagged W bn sys ep h s data s' :
  endpoints sys = Some ep →
  fetch W bn sys ep h s = (inr data, s') →
  tagged sys data.
Proof.
  intros Hep H.
  destruct sys; try discriminate Hep; unfold fetch in H;
    unfold _verify_cra, _verify_ised, _verify_isc, _verify_pspc,
      _verify_provincial in H;
    run_in H; injection H as <- <-; eexists; (split; [reflexivity|]);
    apply lookup_insert_eq.
Qed.

Lemma cache_key_inj sys1 bn1 sys2 bn2 :
  cache_key sys1 bn1 = cache_key sys2 bn2 → sys1 = sys2 ∧ bn1 = bn2.
Proof.
  unfold cache_key. destruct sys1, sys2; simpl; intros H; by simplify_eq.
Qed.

Lemma cache_wf_empty : cache_wf ∅.
Proof. intros sys bn data t. by rewrite lookup_empty. Qed.

Lemma cache_wf_insert c sys bn data t :
  cache_wf c → tagged sys data → cache_wf (<[cache_key sys bn := (data, t)]> c).
Proof.
  intros Hc Ht sys' bn' data' t'. rewrite lookup_insert.
  case_decide as Hk.
  - apply cache_key_inj in Hk as [-> ->]. by intros [= <- <-].
  - apply Hc.
Qed.

Lemma cache_lookup_some W bn sys s d s0 :
  cache_lookup W bn sys s = (inr (Some d), s0) →
  ∃ t, cache s !! cache_key sys bn = Some (d, t).
Proof.
  unfold cache_lookup, get_cache. rewrite bind_run. simpl.
  destruct (cache s !! cache_key sys bn) as [[d' t]|]; [|done].
  rewrite bind_run. simpl. rewrite bind_run. unfold lift.
  destruct (endpoints_getitem sys); [done|]. simpl.
  case_bool_decide; [|done]. intros [= <- <-]. eauto.
Qed.

Lemma cache_lookup_ok W bn sys ep s :
  endpoints sys = Some ep →
  ∃ hit s0, cache_lookup W bn sys s = (inr hit, s0).
Proof.
  intros Hep. unfold cache_lookup, get_cache. rewrite bind_run. simpl.
  destruct (cache s !! cache_key sys bn) as [[d' t]|]; [|by eauto].
  rewrite bind_run. simpl. rewrite bind_run. unfold lift, endpoints_getitem.
  rewrite Hep. simpl. case_bool_decide; eauto.
Qed.

Lemma verify_with_system_tagged W bn sys ep s :
  endpoints sys = Some ep →
  cache_wf (cache s) →
  cache_wf (cache (_verify_with_system W bn sys s).2)
  ∧ ∀ d, (_verify_with_system W bn sys s).1 = inr d → tagged sys d.
Proof.
  intros Hep Hwf.
  destruct (cache_lookup_ok W bn sys ep s Hep) as ([d|] & s0 & Hl).
  - rewrite (verify_with_system_hit W bn sys s d s0 Hl). simpl.
    pose proof (cache_lookup_cache W bn sys s) as Hc. rewrite Hl in Hc.
    simpl in Hc. rewrite Hc. split; [done|]. intros ? [= <-].
    destruct (cache_lookup_some W bn sys s d s0 Hl) as [t Ht]. by eapply Hwf.
  - destruct (get_auth_headers_run sys ep s0 Hep) as [h Hh].
    rewrite (verify_with_system_miss W bn sys ep s s0 h Hep Hl Hh).
    pose proof (cache_lookup_cache W bn sys s) as Hc. rewrite Hl in Hc.
    simpl in Hc.
    pose proof (fetch_cache W bn sys ep h s0) as Hfc.
    pose proof (fetch_tagged W bn sys ep h s0) as Hft.
    pose proof (after_fetch_result W bn sys (fetch W bn sys ep h s0).1
                  (fetch W bn sys ep h s0).2) as Hres.
    rewrite after_fetch_cache.
    destruct (fetch W bn sys ep h s0) as [[e|data] s1]; cbn [fst snd] in *.
    + rewrite Hfc, Hc. split; [done|]. intros d Hd. by rewrite Hd in Hres.
    + rewrite Hfc, Hc. split.
      * apply cache_wf_insert; eauto.
      * intros d Hd. rewrite Hd in Hres. injection Hres as ->. eauto.
Qed.

(** ** Merging *)

(** The loop of [_merge_verification_data] copies every item but
    ['system'] into the section. *)
Lemma merge_section (section items : Data) :
  map_fold (λ key value acc,
              if bool_decide (key ≠ "system") then <[key := value]> acc else acc)
           section items
  = delete "system" items ∪ section.
Proof.
  apply (map_fold_weak_ind (λ r m, r = delete "system" m ∪ section)).
  - by rewrite delete_empty, (left_id_L ∅ (∪)).
  - intros k v m r Hk ->. case_bool_decide as Hne.
    + rewrite delete_insert_ne by done. by rewrite insert_union_l.
    + subst k. by rewrite delete_insert_eq.
Qed.

Lemma merge_tagged consolidated sys data :
  tagged sys data →
  ∃ d, data = VDict d ∧
    _merge_verification_data consolidated data
    = inr (<[HStr (system_name sys) :=
               delete "system" d ∪ default ∅ (consolidated !! HStr (system_name sys))]>
             consolidated).
Proof.
  intros (d & -> & Hd). exists d. split; [done|].
  unfold _merge_verification_data. simpl. unfold dict_get. rewrite Hd. simpl.
  by rewrite merge_section.
Qed.

(** ** The consistency rules produce their own three kinds of flags *)

Lemma inconsistency_not_failure flag :
  is_inconsistency flag → is_failure_flag flag = false.
Proof. by intros [->|[(o & t & ->)| ->]]. Qed.

Ltac result_in H :=
  repeat first
    [ discriminate H
    | match type of H with
      | (?m ≫= _) = inr _ =>
          let a := fresh "a" in
          let Ha := fresh "Ha" in
          apply result_bind_inr in H as (a & Ha & H)
      | context [match ?x with _ => _ end] =>
          lazymatch x with
          | context [match _ with _ => _ end] => fail
          | _ => destruct x eqn:?
          end
      | context [if ?b then _ else _] => destruct b eqn:?
      end ].

Lemma check_addresses_flags c d sys fl :
  check_addresses c d sys = inr fl → fl = [] ∨ fl = [address_flag].
Proof.
  unfold check_addresses, ok. intros H. result_in H; injection H as <-; auto.
Qed.

Lemma check_status_flags c d fl :
  check_status c d = inr fl → fl = [] ∨ ∃ o t, fl = [status_flag o t].
Proof.
  unfold check_status, ok. intros H. result_in H; injection H as <-; eauto.
Qed.

Lemma check_ownership_flags c fl :
  check_ownership c = inr fl → fl = [] ∨ fl = [ownership_flag].
Proof.
  unfold check_ownership, ok. intros H. result_in H; injection H as <-; eauto.
Qed.

Lemma check_flags_inconsistencies c d sys fl :
  _check_data_inconsistencies c d sys = inr fl → Forall is_inconsistency fl.
Proof.
  unfold _check_data_inconsistencies. intros H.
  apply result_bind_inr in H as (fa & Ha & H).
  apply result_bind_inr in H as (fs & Hs & H).
  apply result_bind_inr in H as (fo & Ho & H).
  injection H as <-.
  apply check_addresses_flags in Ha. apply check_status_flags in Hs.
  apply check_ownership_flags in Ho.
  rewrite !Forall_app. unfold is_inconsistency.
  destruct Ha as [->| ->], Hs as [->|(o & t & ->)], Ho as [->| ->];
    repeat split; rewrite ?Forall_singleton; try apply Forall_nil_2; eauto.
Qed.

Lemma filter_failure_inconsistencies fl :
  Forall is_inconsistency fl → List.filter is_failure_flag fl = [].
Proof.
  induction 1 as [|f fl Hf _ IH]; [done|]. simpl.
  by rewrite (inconsistency_not_failure f Hf).
Qed.

(** ** The processing loop *)

Lemma process_result_failure r0 sys e r :
  process_result r0 sys (inl e) = inr r →
  systems_checked r = systems_checked r0
  ∧ consolidated_data r = consolidated_data r0
  ∧ red_flags r = red_flags r0 ++ [failure_flag sys e].
Proof. by intros [= <-]. Qed.

Lemma process_result_success r0 sys data r :
  tagged sys data →
  process_result r0 sys (inr data) = inr r →
  ∃ d fl,
    data = VDict d
    ∧ systems_checked r = systems_checked r0 ++ [system_value sys]
    ∧ consolidated_data r =
        <[tag sys := delete "system" d ∪ default ∅ (consolidated_data r0 !! tag sys)]>
          (consolidated_data r0)
    ∧ _check_data_inconsistencies (consolidated_data r) data sys = inr fl
    ∧ red_flags r = red_flags r0 ++ fl.
Proof.
  intros Ht H. unfold process_result in H.
  destruct (merge_tagged (consolidated_data r0) sys data Ht) as (d & -> & Hm).
  rewrite Hm in H. simpl in H.
  apply result_bind_inr in H as (fl & Hfl & H). injection H as <-.
  exists d, fl. by simpl.
Qed.

Lemma failure_flag_is_failure sys e : is_failure_flag (failure_flag sys e) = true.
Proof. reflexivity. Qed.

Lemma process_results_spec l : ∀ r0 r,
  well_tagged l →
  process_results r0 l = inr r →
  systems_checked r = systems_checked r0 ++ (system_value <$> succeeded l)
  ∧ dom (consolidated_data r)
    = dom (consolidated_data r0) ∪ list_to_set (tag <$> succeeded l)
  ∧ List.filter is_failure_flag (red_flags r)
    = List.filter is_failure_flag (red_flags r0)
      ++ ((λ p, failure_flag p.1 p.2) <$> failures l)
  ∧ (length (red_flags r0) + length (failures l) ≤ length (red_flags r))%nat.
Proof.
  induction l as [|[sys o] l IH]; intros r0 r Hwt H.
  - injection H as <-. simpl. rewrite !app_nil_r.
    split; [done|]. split; [set_solver|]. split; [done|lia].
  - apply Forall_cons in Hwt as [Hhd Hwt]. simpl in H.
    apply result_bind_inr in H as (r1 & H1 & H).
    destruct (IH r1 r Hwt H) as (Hc & Hd & Hf & Hlen). clear IH.
    destruct o as [e|data].
    + apply process_result_failure in H1 as (E1 & E2 & E3).
      rewrite Hc, Hd, Hf, E1, E2, E3. simpl.
      rewrite List.filter_app. simpl. rewrite <- !app_assoc. simpl.
      rewrite E3, length_app in Hlen. simpl in Hlen.
      split; [done|]. split; [done|]. split; [done|lia].
    + apply process_result_success in H1 as (d & fl & -> & E1 & E2 & E3 & E4);
        [|by apply Hhd].
      rewrite Hc, Hd, Hf, E1, E4. rewrite E2 at 1. simpl.
      rewrite List.filter_app, <- !app_assoc.
      rewrite (filter_failure_inconsistencies fl)
        by (by eapply check_flags_inconsistencies).
      simpl.
      rewrite E4, length_app in Hlen.
      split; [done|]. split; [|split; [done|lia]].
      rewrite dom_insert_L. set_solver.
Qed.

(** ** The selected registries *)

Lemma selected_cases bn :
  _determine_relevant_systems bn = [CRA; ISED; ISC; PSPC; ON_ONBIS]
  ∨ _determine_relevant_systems bn = [CRA; ISED; ISC; PSPC; QC_REQ]
  ∨ _determine_relevant_systems bn = [CRA; ISED; ISC; PSPC].
Proof.
  unfold _determine_relevant_systems.
  destruct (startswith bn "1"); [by left|].
  destruct (startswith bn "3"); [by right; left|by right; right].
Qed.

Lemma selected_have_endpoints bn :
  Forall (λ sys, is_Some (endpoints sys)) (_determine_relevant_systems bn).
Proof.
  destruct (selected_cases bn) as [-> | [-> | ->]];
    repeat constructor; by eexists.
Qed.

Lemma selected_NoDup bn : NoDup (_determine_relevant_systems bn).
Proof.
  destruct (selected_cases bn) as [-> | [-> | ->]];
    compute_done.
Qed.

#[global] Instance system_name_inj : Inj (=) (=) system_name.
Proof. intros [] [] H; by simplify_eq. Qed.

#[global] Instance tag_inj : Inj (=) (=) tag.
Proof. intros x y [= H]. by apply system_name_inj. Qed.

(** ** The outcomes of a run *)

Lemma succeeded_sublist l : sublist (succeeded l) l.*1.
Proof.
  induction l as [|[sys [e|d]] l IH]; simpl; [done| |].
  - by apply sublist_cons.
  - by apply sublist_skip.
Qed.

Lemma outcomes_length l :
  (length (succeeded l) + length (failures l) = length l)%nat.
Proof. induction l as [|[sys [e|d]] l IH]; simpl; lia. Qed.

Lemma elem_of_succeeded l sys :
  sys ∈ succeeded l ↔ ∃ d, (sys, inr d) ∈ l.
Proof.
  induction l as [|[sys' [e|d]] l IH]; simpl.
  - split; [by intros ?%elem_of_nil|by intros [? ?%elem_of_nil]].
  - rewrite IH. split; intros [d Hd]; exists d; [by right|].
    by apply elem_of_cons in Hd as [?|?].
  - rewrite elem_of_cons, IH. split.
    + intros [->|[d' ?]]; [exists d; by left|exists d'; by right].
    + intros [d' [[= -> ->]|?]%elem_of_cons]; eauto.
Qed.

Lemma elem_of_failures l sys e :
  (sys, e) ∈ failures l ↔ (sys, inl e) ∈ l.
Proof.
  induction l as [|[sys' [e'|d]] l IH]; simpl.
  - by rewrite !elem_of_nil.
  - rewrite !elem_of_cons, IH. split; intros [?|?]; simplify_eq; eauto.
  - rewrite elem_of_cons, IH. split; [by right|]. by intros [?|?].
Qed.

Lemma run_all_tagged W bn systems : ∀ s,
  Forall (λ sys, is_Some (endpoints sys)) systems →
  cache_wf (cache s) →
  length (run_all (_verify_with_system W bn <$> systems) s).1 = length systems
  ∧ well_tagged (zip systems (run_all (_verify_with_system W bn <$> systems) s).1)
  ∧ cache_wf (cache (run_all (_verify_with_system W bn <$> systems) s).2).
Proof.
  induction systems as [|sys systems IH]; intros s Hep Hwf.
  - simpl. split; [done|]. split; [constructor|done].
  - apply Forall_cons in Hep as [[ep Hsys] Hep]. simpl.
    destruct (verify_with_system_tagged W bn sys ep s Hsys Hwf) as [Hwf1 Ht].
    destruct (_verify_with_system W bn sys s) as [r s1]; simpl in *.
    destruct (IH s1 Hep Hwf1) as (Hlen & Htag & Hwf2).
    destruct (run_all _ s1) as [rs s2]; simpl in *.
    split; [by rewrite Hlen|]. split; [|done].
    constructor; [|done]. simpl. intros d ->. by apply Ht.
Qed.

Lemma outcomes_well_tagged W bn s :
  cache_wf (cache s) → well_tagged (adapter_outcomes W bn s).
Proof.
  intros Hwf. unfold adapter_outcomes.
  by apply run_all_tagged; [apply selected_have_endpoints|].
Qed.

Lemma run_all_length {A} (tasks : list (M A)) : ∀ s,
  length (run_all tasks s).1 = length tasks.
Proof.
  induction tasks as [|t tasks IH]; intros s; simpl; [done|].
  destruct (t s) as [r s1]. specialize (IH s1).
  destruct (run_all tasks s1) as [rs s2]. simpl in *. by rewrite IH.
Qed.

Lemma outcomes_systems W bn s :
  (adapter_outcomes W bn s).*1 = _determine_relevant_systems bn.
Proof.
  unfold adapter_outcomes. apply fst_zip.
  by rewrite run_all_length, length_fmap.
Qed.

Lemma succeeded_NoDup W bn s : NoDup (tag <$> succeeded (adapter_outcomes W bn s)).
Proof.
  apply (NoDup_fmap_2 _).
  eapply sublist_NoDup; [|apply succeeded_sublist].
  rewrite outcomes_systems. apply selected_NoDup.
Qed.

(** ** Unfolding the orchestrator *)

Lemma verify_run W bn s :
  verify_business_across_systems W bn s =
  let s1 := (utcnow W s).2 in
  let systems := _determine_relevant_systems bn in
  let s2 := (run_all (_verify_with_system W bn <$> systems) s1).2 in
  match process_results
          (initial_results bn (utcnow_at W (clock_reads s)))
          (adapter_outcomes W bn s) with
  | inl e => (inl e, s2)
  | inr vr =>
      let r := with_score vr (_calculate_verification_score vr) in
      match _store_verification_results W bn r s2 with
      | (inl e, s3) => (inl e, s3)
      | (inr _, s3) => (inr r, s3)
      end
  end.
Proof.
  unfold verify_business_across_systems, adapter_outcomes, initial_results.
  rewrite bind_run. cbn [utcnow snd fst]. rewrite bind_run. unfold gather.
  destruct (run_all _ _) as [rs s2]. cbn [fst snd]. rewrite bind_run, lift_run.
  destruct (process_results _ _) as [e|vr]; [done|].
  rewrite bind_run. by destruct (_store_verification_results _ _ _ _) as [[?|[]] ?].
Qed.

Lemma verify_returns W bn s r s' :
  verify_business_across_systems W bn s = (inr r, s') →
  ∃ vr, process_results (initial_results bn (utcnow_at W (clock_reads s)))
          (adapter_outcomes W bn s) = inr vr
        ∧ r = with_score vr (_calculate_verification_score vr).
Proof.
  rewrite verify_run. cbv zeta.
  destruct (process_results _ _) as [e|vr]; [done|].
  destruct (_store_verification_results _ _ _ _) as [[?|[]] ?]; [done|].
  intros [= <- <-]. eauto.
Qed.

(** C1. In a run that returns, with [m] selected adapters having handed
    back a document and [k] having raised: [systems_checked] has length
    [m] and lists the succeeding registries in order; [consolidated_data]
    has exactly [m] entries, the ones named after the succeeding
    registries; a registry that failed or was not queried has no entry;
    and [m + k] is the number of selected registries. *)
Theorem one_entry_per_succeeding_system W bn s r s' m k :
  cache_wf (cache s) →
  verify_business_across_systems W bn s = (inr r, s') →
  length (succeeded (adapter_outcomes W bn s)) = m →
  length (failures (adapter_outcomes W bn s)) = k →
  length (systems_checked r) = m
  ∧ size (consolidated_data r) = m
  ∧ systems_checked r = system_value <$> succeeded (adapter_outcomes W bn s)
  ∧ dom (consolidated_data r)
    = list_to_set (tag <$> succeeded (adapter_outcomes W bn s))
  ∧ (∀ sys, sys ∉ succeeded (adapter_outcomes W bn s) →
       consolidated_data r !! tag sys = None)
  ∧ (m + k)%nat = length (_determine_relevant_systems bn).
Proof.
  intros Hwf Hv Hm Hk.
  apply verify_returns in Hv as (vr & Hp & ->).
  apply process_results_spec in Hp as (Hc & Hd & _);
    [|by apply outcomes_well_tagged].
  simpl in *. rewrite dom_empty_L, (left_id_L ∅ (∪)) in Hd.
  split; [by rewrite Hc, length_fmap|].
  split.
  { rewrite <- size_dom, Hd, size_list_to_set by apply succeeded_NoDup.
    by rewrite length_fmap. }
  split; [done|]. split; [done|]. split.
  - intros sys Hsys. apply not_elem_of_dom. rewrite Hd.
    rewrite elem_of_list_to_set, list_elem_of_fmap.
    intros (sys' & Heq & Hin). apply tag_inj in Heq as <-. done.
  - rewrite <- Hm, <- Hk, outcomes_length, <- (outcomes_systems W bn s).
    by rewrite length_fmap.
Qed.

(** ** The cache invariant *)

Lemma for_each_preserves {A X} (proj : state → X) (l : list A)
    (body : A → M unit) :
  (∀ x, preserves proj (body x)) → preserves proj (for_each l body).
Proof.
  intros Hbody. induction l as [|x l IH]; simpl; [by intros s|].
  apply preserves_bind; [apply Hbody|by intros _].
Qed.

Lemma store_cache W bn r :
  preserves cache (_store_verification_results W bn r).
Proof.
  unfold _store_verification_results. apply for_each_preserves.
  intros system. frame.
Qed.

Lemma verify_preserves_cache_wf W bn s :
  cache_wf (cache s) →
  cache_wf (cache (verify_business_across_systems W bn s).2).
Proof.
  intros Hwf. rewrite verify_run. cbv zeta.
  destruct (run_all_tagged W bn (_determine_relevant_systems bn) (utcnow W s).2
              (selected_have_endpoints bn) Hwf) as (_ & _ & Hwf2).
  destruct (process_results _ _) as [e|vr]; [done|].
  match goal with
  | |- context [_store_verification_results W bn ?r ?s2] =>
      pose proof (store_cache W bn r s2) as Hs;
      destruct (_store_verification_results W bn r s2) as [[e|[]] s3]
  end; simpl in *; by rewrite Hs.
Qed.

Lemma reachable_cache_wf W s : reachable W s → cache_wf (cache s).
Proof.
  induction 1 as [|s bn _ IH]; [apply cache_wf_empty|].
  by apply verify_preserves_cache_wf.
Qed.

(** ** Score *)

Lemma score_counts r :
  _calculate_verification_score r
  = clamp (raw_score (length (systems_checked r)) (length (red_flags r))).
Proof. reflexivity. Qed.

Lemma clamp_bounds q : (0 <= clamp q <= 1)%Q.
Proof.
  unfold clamp. split.
  - apply Q.le_max_l.
  - apply Q.max_lub; [lra|]. apply Q.le_min_l.
Qed.

Lemma clamp_mono p q : (p <= q)%Q → (clamp p <= clamp q)%Q.
Proof.
  intros H. unfold clamp.
  apply Q.max_le_compat_l. by apply Q.min_le_compat_l.
Qed.


Lemma raw_score_mono checked flags flags' :
  (flags ≤ flags')%nat → (raw_score checked flags' <= raw_score checked flags)%Q.
Proof.
  intros H. unfold raw_score.
  assert (inject_Z (Z.of_nat flags) <= inject_Z (Z.of_nat flags'))%Q as Hq.
  { rewrite <- Zle_Qle. lia. }
  lra.
Qed.

(** C3. For fixed [systems_checked], a result with at least as many red
    flags never has the higher score, and every score lies in [0, 1]. *)
Theorem score_monotone_and_bounded r r' :
  systems_checked r = systems_checked r' →
  (length (red_flags r) ≤ length (red_flags r'))%nat →
  (_calculate_verification_score r' <= _calculate_verification_score r)%Q
  ∧ (0 <= _calculate_verification_score r <= 1)%Q.
Proof.
  intros Hs Hf. rewrite !score_counts. split; [|apply clamp_bounds].
  apply clamp_mono. rewrite Hs. by apply raw_score_mono.
Qed.

(** A run checks at most five registries and raises at most three flags
    per registry. Over these counts and beyond, rounding changes
    nothing to C3. *)
Lemma score_binary64_in_range :
  forallb (λ checked, forallb (score_ok checked) (seq 0 19)) (seq 0 7) = true.
Proof. vm_compute. reflexivity. Qed.

Lemma score_binary64 checked flags :
  (checked ≤ 6)%nat → (flags ≤ 18)%nat →
  let x := Binary64.to_Q (Binary64.score checked flags) in
  (0 <= x <= 1)%Q
  ∧ (Binary64.to_Q (Binary64.score checked (S flags)) <= x)%Q
  ∧ (Qabs (x - clamp (raw_score checked flags)) <= 1 # 1000000000000000)%Q.
Proof.
  intros Hc Hf x.
  pose proof score_binary64_in_range as H.
  rewrite forallb_forall in H.
  specialize (H checked). rewrite forallb_forall in H.
  assert (score_ok checked flags = true) as Hok.
  { apply H; apply in_seq; lia. }
  unfold score_ok in Hok. fold x in Hok.
  repeat (apply andb_prop in Hok as [Hok ?]).
  repeat split; by apply Qle_bool_iff.
Qed.

(** ** Failure flags *)


Lemma failure_flag_recorded (flags : list string) l sys e :
  List.filter is_failure_flag flags = (λ p, failure_flag p.1 p.2) <$> failures l →
  (sys, inl e) ∈ l →
  failure_flag sys e ∈ flags.
Proof.
  intros Hf Hin. apply elem_of_failures in Hin.
  assert (failure_flag sys e ∈ List.filter is_failure_flag flags) as Hx.
  { rewrite Hf. apply list_elem_of_fmap. by exists (sys, e). }
  apply list_elem_of_In, List.filter_In in Hx as [Hx _].
  by apply list_elem_of_In.
Qed.


(** ** Runs in which no adapter succeeds *)

Lemma process_results_all_failed l : ∀ r0,
  succeeded l = [] →
  process_results r0 l =
  inr {| business_number := business_number r0;
         verification_timestamp := verification_timestamp r0;
         systems_checked := systems_checked r0;
         consolidated_data := consolidated_data r0;
         red_flags := red_flags r0 ++ ((λ p, failure_flag p.1 p.2) <$> failures l);
         verification_score := verification_score r0 |}.
Proof.
  induction l as [|[sys [e|d]] l IH]; intros r0 Hs; simpl in *.
  - rewrite app_nil_r. by destruct r0.
  - rewrite (IH _ Hs). simpl. by rewrite <- app_assoc.
  - done.
Qed.

Lemma clamp_floor q : (q <= 0)%Q → (clamp q == 0)%Q.
Proof.
  intros H. unfold clamp. rewrite Q.max_l; [done|].
  eapply Qle_trans; [apply Q.le_min_r|done].
Qed.

Lemma selected_at_least_four bn : (4 ≤ length (_determine_relevant_systems bn))%nat.
Proof. destruct (selected_cases bn) as [-> | [-> | ->]]; simpl; lia. Qed.

(** C6, amended. When no selected adapter succeeds the run returns, with
    empty [systems_checked], empty [consolidated_data], the score at its
    floor 0, and as red flags exactly one failure flag per selected
    registry. *)
Theorem no_adapter_succeeds W bn s :
  succeeded (adapter_outcomes W bn s) = [] →
  ∃ r s',
    verify_business_across_systems W bn s = (inr r, s')
    ∧ systems_checked r = []
    ∧ consolidated_data r = ∅
    ∧ red_flags r = (λ p, failure_flag p.1 p.2) <$> failures (adapter_outcomes W bn s)
    ∧ length (red_flags r) = length (_determine_relevant_systems bn)
    ∧ (verification_score r == 0)%Q.
Proof.
  intros Hs. rewrite verify_run. cbv zeta.
  rewrite (process_results_all_failed _ _ Hs).
  unfold _store_verification_results. cbn [with_score systems_checked
    initial_results for_each mret M_ret red_flags app consolidated_data
    verification_score].
  eexists _, _. split; [reflexivity|]. cbn [systems_checked consolidated_data
    red_flags verification_score].
  assert (length (failures (adapter_outcomes W bn s))
          = length (_determine_relevant_systems bn)) as Hlen.
  { pose proof (outcomes_length (adapter_outcomes W bn s)) as Hl.
    rewrite Hs in Hl. simpl in Hl.
    by rewrite Hl, <- (outcomes_systems W bn s), length_fmap. }
  cbn [with_score systems_checked consolidated_data red_flags
       verification_score].
  repeat split; [by rewrite length_fmap|].
  rewrite score_counts. cbn [systems_checked red_flags length].
  apply clamp_floor. unfold raw_score. rewrite length_fmap, Hlen.
  pose proof (selected_at_least_four bn) as H4.
  assert (inject_Z 4 <= inject_Z (Z.of_nat (length (_determine_relevant_systems bn))))%Q
    as Hq by (rewrite <- Zle_Qle; lia).
  change (inject_Z (4 - Z.of_nat 0)) with (inject_Z 4). 
  change (inject_Z 4) with 4%Q in *. lra.
Qed.

(** ** Queried registries *)

Lemma NoDup_fst_unique {A B} (l : list (A * B)) x y1 y2 :
  NoDup l.*1 → (x, y1) ∈ l → (x, y2) ∈ l → y1 = y2.
Proof.
  induction l as [|[a b] l IH]; simpl; [by intros _ ?%elem_of_nil|].
  intros Hnd Hin1 Hin2. apply NoDup_cons in Hnd as [Hnot Hnd].
  apply elem_of_cons in Hin1 as [E1|H1]; apply elem_of_cons in Hin2 as [E2|H2].
  - congruence.
  - injection E1 as <- <-. destruct Hnot.
    apply list_elem_of_fmap. by exists (x, y2).
  - injection E2 as <- <-. destruct Hnot.
    apply list_elem_of_fmap. by exists (x, y1).
  - eauto.
Qed.

Lemma outcome_unique W bn s sys o1 o2 :
  (sys, o1) ∈ adapter_outcomes W bn s →
  (sys, o2) ∈ adapter_outcomes W bn s →
  o1 = o2.
Proof.
  apply NoDup_fst_unique. rewrite outcomes_systems. apply selected_NoDup.
Qed.

#[global] Instance system_value_inj : Inj (=) (=) system_value.
Proof. intros [] [] H; by simplify_eq. Qed.

(** C2, amended. In a run that returns, every selected registry either
    handed back a document, and is then listed in [systems_checked] and
    has an entry in [consolidated_data], or raised, and is then in
    neither and is reported by a failure flag. *)
Theorem queried_means_consolidated W bn s r s' sys :
  cache_wf (cache s) →
  verify_business_across_systems W bn s = (inr r, s') →
  sys ∈ _determine_relevant_systems bn →
  (∃ data,
      (sys, inr data) ∈ adapter_outcomes W bn s
      ∧ system_value sys ∈ systems_checked r
      ∧ is_Some (consolidated_data r !! tag sys))
  ∨ (∃ e,
       ((sys, inl e) ∈ adapter_outcomes W bn s)
       ∧ (system_value sys ∉ systems_checked r)
       ∧ (consolidated_data r !! tag sys = None)
       ∧ (failure_flag sys e ∈ red_flags r)).
Proof.
  intros Hwf Hv Hsel.
  apply verify_returns in Hv as (vr & Hp & ->).
  apply process_results_spec in Hp as (Hc & Hd & Hf & _);
    [|by apply outcomes_well_tagged].
  cbn [with_score red_flags systems_checked consolidated_data
       initial_results] in *.
  simpl in Hc, Hd, Hf. rewrite dom_empty_L, (left_id_L ∅ (∪)) in Hd.
  rewrite <- (outcomes_systems W bn s) in Hsel.
  apply list_elem_of_fmap in Hsel as ([sys' o] & -> & Hin). simpl.
  destruct o as [e|data]; [right; exists e|left; exists data].
  - assert (sys' ∉ succeeded (adapter_outcomes W bn s)) as Hnot.
    { intros [d Hd']%elem_of_succeeded.
      by pose proof (outcome_unique W bn s sys' _ _ Hin Hd'). }
    split; [done|]. split; [|split].
    + rewrite Hc. intros (sys & Heq & Hs)%list_elem_of_fmap.
      by apply (inj system_value) in Heq as <-.
    + apply not_elem_of_dom. rewrite Hd, elem_of_list_to_set.
      intros (sys & Heq & Hs)%list_elem_of_fmap.
      by apply (inj tag) in Heq as <-.
    + by eapply failure_flag_recorded.
  - assert (sys' ∈ succeeded (adapter_outcomes W bn s)) as Hok.
    { apply elem_of_succeeded. eauto. }
    split; [done|]. split.
    + rewrite Hc. by apply list_elem_of_fmap_2.
    + apply elem_of_dom. rewrite Hd, elem_of_list_to_set.
      by apply list_elem_of_fmap_2.
Qed.

(** ** The address rule *)




Lemma dict_get_section (d : Data) k default :
  k ≠ "system" → dict_get (delete "system" d ∪ ∅) k default = dict_get d k default.
Proof.
  intros Hk. unfold dict_get.
  by rewrite (right_id_L ∅ (∪)), lookup_delete_ne.
Qed.









(** ** The ownership rule *)

Lemma check_ownership_spec c fl :
  check_ownership c = inr fl →
  (ownership_flag ∈ fl ↔ ownership_mismatch c).
Proof.
  unfold check_ownership, ownership_mismatch, ok. intros H.
  destruct (c !! HStr "ISC") as [isc|] eqn:Hisc.
  2: { injection H as <-. split; [by intros ?%elem_of_nil|].
       by intros (? & ? & ? & ? & ? & _). }
  destruct (c !! HStr "ISED") as [ised|] eqn:Hised.
  2: { injection H as <-. split; [by intros ?%elem_of_nil|].
       by intros (? & ? & ? & ? & _ & ? & _). }
  apply result_bind_inr in H as (maj & Hmaj & H).
  destruct maj.
  2: { injection H as <-. split; [by intros ?%elem_of_nil|].
       intros (? & ? & ? & ? & [= <-] & [= <-] & Hge & _). congruence. }
  apply result_bind_inr in H as (owners & Ho & H).
  apply result_bind_inr in H as (directors & Hd & H).
  repeat case_bool_decide; simpl in H; injection H as <-.
  all: split;
    [ intros Hin; try (by apply elem_of_nil in Hin);
      by exists isc, ised, owners, directors
    | intros (? & ? & ? & ? & [= <-] & [= <-] & _ & Ho' & Hd' & ? & ? & ?);
      rewrite Ho in Ho'; rewrite Hd in Hd'; simplify_eq; try done;
      by apply list_elem_of_singleton ].
Qed.

Lemma status_flag_neq_ownership o t : status_flag o t ≠ ownership_flag.
Proof. done. Qed.


(** What the rule's comparisons mean on numbers and identifier lists. *)
Lemma py_ge_int_int (p n : Z) : py_ge_int (VInt p) n = inr true ↔ n ≤ p.
Proof.
  unfold py_ge_int, ok. split.
  - intros [= H]. by apply Z.leb_le.
  - intros H. f_equal. by apply Z.leb_le.
Qed.

Lemma hkeys_strs (l : list string) :
  hkeys (VStr <$> l) = inr (list_to_set (HStr <$> l)).
Proof.
  induction l as [|x l IH]; [done|]. rewrite !fmap_cons. cbn [hkeys].
  rewrite IH. done.
Qed.

Lemma py_set_strs (l : list string) :
  py_set (VList (VStr <$> l)) = inr (list_to_set (HStr <$> l)).
Proof. unfold py_set. simpl. apply hkeys_strs. Qed.

(** ** Persistence *)

Lemma store_outcome W bn r systems : ∀ s,
  (for_each systems (λ system,
     let snapshot := default ∅ (consolidated_data r !! HStr system) in
     now ← utcnow W;
     db_execute W (UpsertSnapshot bn system bn snapshot r now "success")) s).1
  = match first_db_failure W (length (db_calls s))
            (snapshot_calls W bn r (clock_reads s) systems) with
    | Some e => inl e
    | None => inr ()
    end.
Proof.
  induction systems as [|system systems IH]; intros s; [done|].
  cbn [for_each]. rewrite bind_run, bind_run. cbn [utcnow db_execute fst snd
    clock_reads db_calls cache net_calls].
  unfold snapshot_calls. rewrite imap_cons. cbn [first_db_failure].
  rewrite Nat.add_0_r.
  destruct (db_at W _ _) as [e|]; [done|].
  rewrite IH. cbn [clock_reads db_calls]. rewrite length_app. simpl.
  rewrite Nat.add_1_r. unfold snapshot_calls.
  erewrite (imap_ext _ (_ ∘ S)); [done|].
  intros i x _. simpl. do 2 f_equal. lia.
Qed.

Lemma after_fetch_log_failure W bn sys data s1 e :
  db_at W (length (db_calls s1))
    (InsertLog bn (system_value sys) "verify" true None
       (utcnow_at W (S (clock_reads s1)))
       (utcnow_at W (S (S (clock_reads s1))))) = Some e →
  ∃ e', (after_fetch W bn sys (inr data) s1).1 = inl e'.
Proof.
  intros Hdb. unfold after_fetch.
  unfold _log_integration at 1. rewrite !bind_run.
  cbn [utcnow db_execute fst snd clock_reads db_calls cache net_calls].
  rewrite bind_run.
  cbn [utcnow db_execute fst snd clock_reads db_calls cache net_calls].
  rewrite Hdb.
  destruct (_log_integration _ _ _ _ _ _) as [[?|?] ?]; eauto.
Qed.

(** C9, amended. Once the adapter results are processed, the run returns
    the result if every snapshot write succeeds and otherwise raises what
    the first failing write raised; and an adapter call whose document
    was fetched but whose audit-log write fails raises. *)
Theorem persistence_failure_reaches_the_caller W bn s vr :
  process_results (initial_results bn (utcnow_at W (clock_reads s)))
    (adapter_outcomes W bn s) = inr vr →
  let r := with_score vr (_calculate_verification_score vr) in
  let s2 := state_after_gather W bn s in
  (verify_business_across_systems W bn s).1
  = match first_db_failure W (length (db_calls s2))
            (snapshot_calls W bn r (clock_reads s2) (systems_checked r)) with
    | Some e => inl e
    | None => inr r
    end
  ∧ ∀ sys ep s0 s1 headers data s2' e,
      endpoints sys = Some ep →
      cache_lookup W bn sys s0 = (inr None, s1) →
      _get_auth_headers sys s1 = (inr headers, s1) →
      fetch W bn sys ep headers s1 = (inr data, s2') →
      db_at W (length (db_calls s2'))
        (InsertLog bn (system_value sys) "verify" true None
           (utcnow_at W (S (clock_reads s2')))
           (utcnow_at W (S (S (clock_reads s2'))))) = Some e →
      ∃ e', (_verify_with_system W bn sys s0).1 = inl e'.
Proof.
  intros Hp r s2. split.
  - rewrite verify_run. cbv zeta. rewrite Hp. fold r.
    pose proof (store_outcome W bn r (systems_checked r) s2) as Hs.
    subst s2. unfold state_after_gather in *.
    unfold _store_verification_results. cbv zeta in Hs |- *.
    destruct (for_each _ _ _) as [[e|[]] s3]; cbn [fst] in Hs |- *;
      destruct (first_db_failure _ _ _); by simplify_eq.
  - intros sys ep s0 s1 h data s2' e Hep Hl Hh Hf Hdb.
    rewrite (verify_with_system_miss W bn sys ep s0 s1 h Hep Hl Hh), Hf.
    cbn [fst snd]. by eapply after_fetch_log_failure.
Qed.

Lemma initial_cache_wf : cache_wf (cache initial_state).
Proof. apply cache_wf_empty. Qed.

Lemma returned_run (out : result VerificationResult * state) :
  is_ok out.1 = true → out = (inr (returned out), out.2).
Proof. destruct out as [[e|r] s]; [done|]. by intros _. Qed.

Ltac by_running := vm_compute; reflexivity.

(** ** Two remarks on runs *)

(** A run can raise while it processes the documents: an ISC document
    without ownership percentage is compared with 51 as [None]. *)
Lemma run_without_percentage_raises :
  (verify_business_across_systems world_bare bn_example initial_state).1
  = inl (TypeError
           "'>=' not supported between instances of 'NoneType' and 'int'").
Proof. vm_compute. reflexivity. Qed.

Lemma value_is_no_name sys sys' : system_value sys ≠ system_name sys'.
Proof. destruct sys, sys'; discriminate. Qed.

(** The snapshot of a registry is looked up under its lower-case value
    while the sections are stored under the upper-case name: what is
    written is always the empty record. *)
Lemma snapshot_is_empty W bn s r s' sys :
  cache_wf (cache s) →
  verify_business_across_systems W bn s = (inr r, s') →
  consolidated_data r !! HStr (system_value sys) = None.
Proof.
  intros Hwf Hv. apply verify_returns in Hv as (vr & Hp & ->).
  apply process_results_spec in Hp as (_ & Hd & _);
    [|by apply outcomes_well_tagged].
  simpl in *. rewrite dom_empty_L, (left_id_L ∅ (∪)) in Hd.
  apply not_elem_of_dom. rewrite Hd, elem_of_list_to_set.
  intros (sys' & [= Heq] & _)%list_elem_of_fmap.
  by destruct (value_is_no_name sys sys').
Qed.

(** ** Witnesses *)

Lemma one_entry_per_succeeding_system_witness :
  length (succeeded (adapter_outcomes world_partial bn_example initial_state)) = 2%nat
  ∧ length (failures (adapter_outcomes world_partial bn_example initial_state)) = 3%nat
  ∧ length (systems_checked (returned run_partial)) = 2%nat
  ∧ size (consolidated_data (returned run_partial)) = 2%nat.
Proof.
  assert (length (succeeded (adapter_outcomes world_partial bn_example
                               initial_state)) = 2%nat) as Hm
    by (vm_compute; reflexivity).
  assert (length (failures (adapter_outcomes world_partial bn_example
                              initial_state)) = 3%nat) as Hk
    by (vm_compute; reflexivity).
  split; [exact Hm|]. split; [exact Hk|].
  destruct (one_entry_per_succeeding_system world_partial bn_example
              initial_state (returned run_partial) run_partial.2 2 3
              initial_cache_wf
              (returned_run run_partial ltac:(vm_compute; reflexivity)) Hm Hk)
    as (H1 & H2 & _).
  split; [exact H1|exact H2].
Defined.

Lemma score_monotone_and_bounded_witness :
  (_calculate_verification_score (returned run_partial)
   <= _calculate_verification_score (returned run_empty_address))%Q
  ∧ (0 <= _calculate_verification_score (returned run_empty_address) <= 1)%Q.
Proof.
  apply (score_monotone_and_bounded (returned run_empty_address)
           (returned run_partial)).
  - vm_compute; reflexivity.
  - vm_compute. lia.
Defined.

Lemma cache_entry_served_only_within_ttl_witness :
  (* a millisecond old: served from the cache, nothing sent *)
  ((_verify_with_system world_partial bn_example CRA state_cached).1
     = inr cached_document
   ∧ net_calls (_verify_with_system world_partial bn_example CRA state_cached).2
     = [])
  (* an hour old: one request, and the entry is renewed *)
  ∧ (∃ req, net_calls (_verify_with_system world_later bn_example CRA
                         state_cached).2 = [req]).
Proof.
  assert (endpoints CRA = Some {| base_url := "https://api.cra-arc.gc.ca/v1";
                                  auth_type := "oauth2"; timeout := 60;
                                  retry_attempts := 3; cache_ttl := 3600 |})
    as Hep by reflexivity.
  assert (cache state_cached !! cache_key CRA bn_example
          = Some (cached_document, 0)) as Hc by (vm_compute; reflexivity).
  split.
  - destruct (cache_entry_served_only_within_ttl world_partial bn_example CRA
                _ state_cached cached_document 0 Hep Hc) as [Hfresh _].
    destruct Hfresh as (H1 & H2 & _); [vm_compute; reflexivity|].
    split; [exact H1|exact H2].
  - destruct (cache_entry_served_only_within_ttl world_later bn_example CRA
                _ state_cached cached_document 0 Hep Hc) as [_ Hold].
    destruct Hold as (h & _ & Hreq & _); [vm_compute; discriminate|].
    exact Hreq.
Defined.



Lemma no_adapter_succeeds_witness :
  ∃ r s', run_down = (inr r, s') ∧ systems_checked r = []
          ∧ length (red_flags r) = 5%nat ∧ (verification_score r == 0)%Q.
Proof.
  destruct (no_adapter_succeeds world_down bn_example initial_state)
    as (r & s' & Hrun & Hchecked & _ & _ & Hlen & Hscore);
    [vm_compute; reflexivity|].
  exists r, s'. split; [exact Hrun|]. split; [exact Hchecked|].
  split; [exact Hlen|exact Hscore].
Defined.

Lemma queried_means_consolidated_witness :
  "cra" ∈ systems_checked (returned run_not_found)
  ∧ is_Some (consolidated_data (returned run_not_found) !! tag CRA).
Proof.
  destruct (queried_means_consolidated world_not_found bn_example
              initial_state (returned run_not_found) run_not_found.2 CRA
              initial_cache_wf
              (returned_run run_not_found ltac:(vm_compute; reflexivity)))
    as [(data & _ & Hchecked & Hcons) | (e & _ & Hnot & _)].
  - vm_compute. left.
  - split; [exact Hchecked|exact Hcons].
  - exfalso. apply Hnot. vm_compute. left.
Defined.



Lemma persistence_failure_reaches_the_caller_witness :
  run_snapshots_fail.1 = inl db_refuses.
Proof.
  destruct (persistence_failure_reaches_the_caller world_snapshots_fail
              bn_example initial_state
              (returned (process_results
                           (initial_results bn_example 0)
                           (adapter_outcomes world_snapshots_fail bn_example
                              initial_state), initial_state)))
    as [Hrun _]; [vm_compute; reflexivity|].
  unfold run_snapshots_fail. rewrite Hrun. vm_compute. reflexivity.
Defined.

(** ** Counterexamples *)

(** C2 as stated fails: a not-found answer either is a document, and then
    the registry is consolidated, or is raised, and then the registry is
    a failure. *)
Lemma not_found_is_consolidated_or_a_failure :
  (run_not_found.1 = inr (returned run_not_found)
   ∧ systems_checked (returned run_not_found) = ["cra"]
   ∧ is_Some (consolidated_data (returned run_not_found) !! HStr "CRA")
   ∧ (consolidated_data (returned run_not_found) !! HStr "CRA"
        ≫= (.!! "found")) = None)
  ∧ (run_not_found_raised.1 = inr (returned run_not_found_raised)
     ∧ systems_checked (returned run_not_found_raised) = []
     ∧ head (red_flags (returned run_not_found_raised))
       = Some "Failed to verify with cra: 404, message='Not Found'").
Proof.
  split.
  - split; [by_running|]. split; [by_running|]. split; [|by_running].
    eexists. by_running.
  - split; [by_running|]. split; by_running.
Qed.

(** C6 as stated fails: no flag names the situation. *)
Lemma no_systems_reachable_flag_is_missing :
  succeeded (adapter_outcomes world_down bn_example initial_state) = []
  ∧ run_down.1 = inr (returned run_down)
  ∧ red_flags (returned run_down)
    = ["Failed to verify with cra: timeout";
       "Failed to verify with ised: timeout";
       "Failed to verify with isc: timeout";
       "Failed to verify with pspc: timeout";
       "Failed to verify with on_onbis: timeout"]
  ∧ Forall (λ flag, mentions "no-systems-reachable" flag = false)
      (red_flags (returned run_down)).
Proof.
  assert (red_flags (returned run_down)
          = ["Failed to verify with cra: timeout";
             "Failed to verify with ised: timeout";
             "Failed to verify with isc: timeout";
             "Failed to verify with pspc: timeout";
             "Failed to verify with on_onbis: timeout"]) as E
    by by_running.
  split; [by_running|]. split; [by_running|]. split; [exact E|].
  rewrite E. repeat (apply Forall_cons; split; [by_running|]).
  apply Forall_nil_2.
Qed.



(** C9 as stated fails: the database's failure is the caller's. *)
Lemma snapshot_failure_loses_the_result :
  (run_healthy.1 = inr (returned run_healthy)
   ∧ systems_checked (returned run_healthy)
     = ["cra"; "ised"; "isc"; "pspc"; "on_onbis"]
   ∧ red_flags (returned run_healthy) = [])
  ∧ run_snapshots_fail.1 = inl db_refuses
  ∧ (run_db_down.1 = inr (returned run_db_down)
     ∧ length (net_calls run_db_down.2) = 5%nat
     ∧ systems_checked (returned run_db_down) = []
     ∧ red_flags (returned run_db_down)
       = ["Failed to verify with cra: connection refused";
          "Failed to verify with ised: connection refused";
          "Failed to verify with isc: connection refused";
          "Failed to verify with pspc: connection refused";
          "Failed to verify with on_onbis: connection refused"]).
Proof.
  split; [split; [by_running|]; split; by_running|].
  split; [by_running|].
  split; [by_running|]. split; [by_running|]. split; by_running.
Qed.

(** * Further properties of the integrator and of the analytics *)

(** ** Comparisons with literals *)

Lemma member_of_spec v l s :
  member_of v l = Some s ↔ v = VStr s ∧ s ∈ l.
Proof.
  unfold member_of. destruct v; try (split; [done|by intros [[=] _]]).
  case_bool_decide; split.
  - by intros [= <-].
  - by intros [[= <-] _].
  - done.
  - intros [[= <-] ?]. done.
Qed.

Lemma py_eq_str_spec v s : py_eq_str v s = true ↔ v = VStr s.
Proof.
  unfold py_eq_str. destruct v; try (split; [done|by intros [=]]).
  case_bool_decide; split; try done; [by intros _; subst|by intros [= ->]].
Qed.


(** ** Requests *)

Lemma fetch_request W bn sys ep h s :
  endpoints sys = Some ep →
  ∃ req,
    net_calls (fetch W bn sys ep h s).2 = net_calls s ++ [req]
    ∧ registry_of req = Some sys
    ∧ req_timeout req = timeout ep
    ∧ req_headers req = h.
Proof.
  intros Hep.
  destruct sys; try discriminate Hep; injection Hep as <-; unfold fetch;
    unfold _verify_cra, _verify_ised, _verify_isc, _verify_pspc,
      _verify_provincial, session_get, session_post;
    rewrite bind_run;
    match goal with
    | |- context [http W ?r s] =>
        exists r; split; [|by vm_compute]; unfold http at 1;
        destruct (http_at W (length (net_calls s)) r) as [e|data]; [done|]
    end.
  all: match goal with
       | |- net_calls (?m ?s1).2 = _ =>
           change (net_calls s ++ [_]) with (net_calls s1);
           assert (preserves net_calls m) as Hp by frame; apply Hp
       end.
Qed.

Lemma registry_of_prefix req sys ep :
  registry_of req = Some sys →
  endpoints sys = Some ep →
  has_prefix (base_url ep) (req_url req) = true.
Proof.
  unfold registry_of. intros Hf Hep.
  apply List.find_some in Hf as [_ Hp]. by rewrite Hep in Hp.
Qed.

Lemma has_prefix_both p : ∀ q s,
  has_prefix p s = true → has_prefix q s = true →
  has_prefix p q = true ∨ has_prefix q p = true.
Proof.
  induction p as [|a p IH]; intros q s Hp Hq; [by left|].
  destruct q as [|b q]; [by right|].
  destruct s as [|c s]; [done|]. cbn [has_prefix] in *.
  apply andb_prop in Hp as [Ha Hp]. apply andb_prop in Hq as [Hb Hq].
  apply Ascii.eqb_eq in Ha as ->. apply Ascii.eqb_eq in Hb as ->.
  rewrite Ascii.eqb_refl. simpl. by eapply IH.
Qed.

(** No base URL of the configuration is a prefix of another: a URL lies
    under the base URL of one registry at most. *)
Lemma one_registry_per_url url sys sys' ep ep' :
  endpoints sys = Some ep →
  endpoints sys' = Some ep' →
  has_prefix (base_url ep) url = true →
  has_prefix (base_url ep') url = true →
  sys' = sys.
Proof.
  intros Hep Hep' Hp Hp'.
  destruct (has_prefix_both _ _ _ Hp Hp') as [H | H];
    destruct sys; try discriminate Hep; injection Hep as <-;
    destruct sys'; try discriminate Hep'; injection Hep' as <-;
    (done || (vm_compute in H; discriminate H)).
Qed.

(** The headers do not depend on the state: lines 451-467. *)
Lemma get_auth_headers_pure sys ep :
  endpoints sys = Some ep →
  ∃ h, (∀ s, _get_auth_headers sys s = (inr h, s))
       ∧ (auth_type ep = "oauth2" →
            h = VDict {[ "Authorization" := VStr "Bearer mock_oauth_token" ]})
       ∧ (auth_type ep = "api_key" →
            h = VDict {[ "X-API-Key" := VStr "mock_api_key" ]})
       ∧ (auth_type ep = "certificate" →
            h = VDict {[ "X-Client-Certificate" := VStr "mock_client_cert" ]})
       ∧ auth_type ep ∈ ["oauth2"; "api_key"; "certificate"].
Proof.
  intros Hep.
  destruct sys; try discriminate Hep; injection Hep as <-;
    (eexists; split; [intros s; reflexivity|]);
    cbn [auth_type mkEndpoint];
    (split; [intros; (reflexivity || discriminate)|]);
    (split; [intros; (reflexivity || discriminate)|]);
    (split; [intros; (reflexivity || discriminate)|]);
    set_solver.
Qed.

Lemma snoc_ne {A} (l : list A) x : l ++ [x] ≠ l.
Proof.
  intros H. apply (f_equal length) in H. rewrite length_app in H. simpl in H. lia.
Qed.

(** X1. A call for a configured registry sends at most one request.  When
    it sends one, the URL lies under the base URL configured for that
    registry and under the base URL of no other configured registry, the
    timeout is the endpoint's, and the headers are the dictionary that
    [_get_auth_headers] returns for the registry: [Authorization] with
    [Bearer mock_oauth_token] for an endpoint with OAuth2, [X-API-Key]
    with [mock_api_key] for one with an API key, [X-Client-Certificate]
    with [mock_client_cert] for one with a certificate, every configured
    endpoint being of one of these three kinds. *)
Theorem requests_go_to_the_configured_endpoint W bn sys ep s :
  endpoints sys = Some ep →
  let out := _verify_with_system W bn sys s in
  net_calls out.2 = net_calls s
  ∨ ∃ req,
      net_calls out.2 = net_calls s ++ [req]
      ∧ has_prefix (base_url ep) (req_url req) = true
      ∧ (∀ sys' ep', endpoints sys' = Some ep' →
           has_prefix (base_url ep') (req_url req) = true → sys' = sys)
      ∧ req_timeout req = timeout ep
      ∧ (∀ s0, _get_auth_headers sys s0 = (inr (req_headers req), s0))
      ∧ (auth_type ep = "oauth2" →
           req_headers req
           = VDict {[ "Authorization" := VStr "Bearer mock_oauth_token" ]})
      ∧ (auth_type ep = "api_key" →
           req_headers req = VDict {[ "X-API-Key" := VStr "mock_api_key" ]})
      ∧ (auth_type ep = "certificate" →
           req_headers req
           = VDict {[ "X-Client-Certificate" := VStr "mock_client_cert" ]})
      ∧ auth_type ep ∈ ["oauth2"; "api_key"; "certificate"].
Proof.
  intros Hep out. subst out.
  destruct (cache_lookup_ok W bn sys ep s Hep) as ([d|] & s0 & Hl);
    pose proof (cache_lookup_net W bn sys s) as Hn; rewrite Hl in Hn;
    simpl in Hn.
  - left. by rewrite (verify_with_system_hit W bn sys s d s0 Hl).
  - right.
    destruct (get_auth_headers_pure sys ep Hep) as (h & Hh & Ho & Ha & Hc & Hin).
    rewrite (verify_with_system_miss W bn sys ep s s0 h Hep Hl (Hh s0)).
    rewrite after_fetch_net.
    destruct (fetch_request W bn sys ep h s0 Hep) as (req & Hreq & Hr & Ht & <-).
    pose proof (registry_of_prefix req sys ep Hr Hep) as Hp.
    exists req. rewrite Hreq, Hn.
    split; [done|]. split; [done|]. split.
    { intros sys' ep' Hep' Hp'. by eapply one_registry_per_url. }
    done.
Qed.

(** ** What an adapter accepts *)

Lemma fetch_outcome W bn sys ep h s req :
  sys ∈ [CRA; ISED; ISC; ON_ONBIS; QC_REQ] →
  net_calls (fetch W bn sys ep h s).2 = net_calls s ++ [req] →
  match http_at W (length (net_calls s)) req with
  | inl e => (fetch W bn sys ep h s).1 = inl e
  | inr body =>
      match sys with
      | QC_REQ =>
          match py_getitem body "entreprise" ≫= as_dict with
          | inl e => (fetch W bn sys ep h s).1 = inl e
          | inr _ => is_ok (fetch W bn sys ep h s).1 = true
          end
      | _ =>
          match as_dict body with
          | inl e => (fetch W bn sys ep h s).1 = inl e
          | inr _ => is_ok (fetch W bn sys ep h s).1 = true
          end
      end
  end.
Proof.
  intros Hsys.
  assert (sys = CRA ∨ sys = ISED ∨ sys = ISC ∨ sys = ON_ONBIS ∨ sys = QC_REQ)
    as Hcases by (rewrite !elem_of_cons, elem_of_nil in Hsys; tauto).
  clear Hsys.
  destruct Hcases as [-> | [-> | [-> | [-> | ->]]]]; unfold fetch;
    unfold _verify_cra, _verify_ised, _verify_isc, _verify_provincial,
      session_get, session_post;
    rewrite !bind_run;
    match goal with
    | |- context [http W ?r s] =>
        unfold http at 1 2 3 4;
        destruct (http_at W (length (net_calls s)) r) as [e|data] eqn:Hans
    end;
    cbn [fst snd net_calls].
  all: try (intros [_ <-]%app_inj_tail; by rewrite Hans).
  all: rewrite ?bind_run, ?lift_run; cbn [fst snd net_calls].
  1-4: destruct (as_dict data) as [e|d] eqn:Hd; cbn [fst snd net_calls];
    intros [_ <-]%app_inj_tail; rewrite Hans; cbn [as_dict]; rewrite ?Hd; done.
  destruct (py_getitem data "entreprise") as [e|ent] eqn:Hent;
    cbn [fst snd net_calls].
  - intros [_ <-]%app_inj_tail. by rewrite Hans, Hent.
  - rewrite bind_run, lift_run. destruct (as_dict ent) as [e|d] eqn:Hd;
      cbn [fst snd net_calls];
      intros [_ <-]%app_inj_tail; rewrite Hans, Hent; simpl; rewrite Hd; done.
Qed.

Lemma as_dict_ok body : is_ok (as_dict body) = true ↔ ∃ d, body = VDict d.
Proof.
  split.
  - destruct body; try done. eauto.
  - by intros [d ->].
Qed.

(** X2. The adapters of CRA, ISED, ISC and Ontario return a document
    exactly when the request is answered by a JSON object, whatever its
    fields; the adapter of Quebec exactly when the parsed answer is an
    object whose [entreprise] entry is an object.  No field is required
    of the answer, so an error body is taken for a verification. *)
Theorem any_json_object_is_a_verification W bn sys ep h s req :
  sys ∈ [CRA; ISED; ISC; ON_ONBIS; QC_REQ] →
  net_calls (fetch W bn sys ep h s).2 = net_calls s ++ [req] →
  (is_ok (fetch W bn sys ep h s).1 = true
   ↔ ∃ body, http_at W (length (net_calls s)) req = inr body ∧ accepted sys body).
Proof.
  intros Hsys Hreq.
  pose proof (fetch_outcome W bn sys ep h s req Hsys Hreq) as Hout.
  destruct (http_at W (length (net_calls s)) req) as [e|body].
  { rewrite Hout. split; [done|]. by intros (? & [=] & _). }
  assert (is_ok (fetch W bn sys ep h s).1 = true ↔ accepted sys body) as Hiff.
  { assert (sys = QC_REQ
            ∨ (sys ≠ QC_REQ ∧ accepted sys body = ∃ d, body = VDict d))
      as [-> | [Hne Hacc]] by (destruct sys; auto).
    - simpl in Hout. split.
      + intros Hok. simpl.
        destruct body as [| | | | | |d]; simpl in Hout;
          try (rewrite Hout in Hok; done).
        destruct (d !! "entreprise") as [ent|] eqn:Hent; simpl in Hout;
          [|rewrite Hout in Hok; done].
        destruct ent; simpl in Hout; try (rewrite Hout in Hok; done). eauto.
      + intros (d & e & -> & Hent). simpl in Hout. by rewrite Hent in Hout.
    - assert (match as_dict body with
              | inl e => (fetch W bn sys ep h s).1 = inl e
              | inr _ => is_ok (fetch W bn sys ep h s).1 = true
              end) as Hout' by (destruct sys; done).
      clear Hout. rewrite Hacc. split.
      + intros Hok.
        destruct body; simpl in Hout'; try (rewrite Hout' in Hok; done). eauto.
      + by intros (d & ->). }
  rewrite Hiff. split; [eauto|]. by intros (? & [= <-] & ?).
Qed.

(** ** Contract counts *)

(** Lines 279 and 286: the contracts with a given status, in the order
    of the answer. *)
Lemma with_status_filter status cs : ∀ l,
  with_status status cs = inr l → l = List.filter (has_status status) cs.
Proof.
  induction cs as [|c cs IH]; intros l H.
  - by injection H as <-.
  - simpl in H. destruct c; try done. simpl in H.
    destruct (with_status status cs) as [|l']; [done|]. simpl in H.
    injection H as <-. cbn [List.filter has_status].
    rewrite <- (IH l' eq_refl). done.
Qed.

Lemma filter_status_disjoint cs :
  (length (List.filter (has_status "active") cs)
   + length (List.filter (has_status "completed") cs) ≤ length cs)%nat.
Proof.
  induction cs as [|c cs IH]; [done|]. cbn [List.filter].
  destruct (has_status "active" c) eqn:E1, (has_status "completed" c) eqn:E2;
    simpl; try lia.
  destruct c; try done. simpl in E1, E2.
  apply py_eq_str_spec in E1, E2. congruence.
Qed.

Lemma sum_values_dicts cs : ∀ acc total,
  sum_values acc cs = inr total → Forall (λ c, ∃ d, c = VDict d) cs.
Proof.
  induction cs as [|c cs IH]; intros acc total H; [by constructor|].
  simpl in H. destruct c; try done.
  simpl in H. destruct (py_add _ _) as [|acc']; [done|]. simpl in H.
  constructor; eauto.
Qed.

Lemma sum_values_ints cs amounts : ∀ acc,
  Forall2 (λ c n, ∃ d, c = VDict d ∧ dict_get d "value" (VInt 0) = VInt n)
    cs amounts →
  sum_values (VInt acc) cs = inr (VInt (acc + foldr Z.add 0 amounts)).
Proof.
  intros acc H. revert acc.
  induction H as [|c n cs amounts (d & -> & Hn) _ IH]; intros acc.
  - simpl. by rewrite Z.add_0_r.
  - cbn [sum_values py_get ok mbind result_bind]. rewrite Hn.
    cbn [py_add ok mbind result_bind]. rewrite IH. simpl.
    by rewrite Z.add_assoc.
Qed.

(** X3. When the PSPC adapter returns, the registry answered its request
    with an object whose [contracts] entry is a list of objects (an entry
    that is missing reads as the empty list, and the empty string passes
    for it); [total_contracts] is the length of that list;
    [active_contracts] and [completed_contracts] are the numbers of its
    contracts with status [active] and with status [completed], which add
    up to at most the total; [recent_contracts] is the list of its first
    ten contracts in the order of the answer; and when the values of the
    contracts are integers, [total_contract_value] is their sum. *)
Theorem pspc_contract_counts W bn ep h s data s' :
  _verify_pspc W bn ep h s = (inr data, s') →
  ∃ answer doc contracts,
    http_at W (length (net_calls s)) (pspc_request bn ep h) = inr (VDict answer)
    ∧ data = VDict doc
    ∧ ((dict_get answer "contracts" (VList []) = VList contracts
        ∧ doc !! "recent_contracts" = Some (VList (take 10 contracts)))
       ∨ (dict_get answer "contracts" (VList []) = VStr ""
          ∧ contracts = []
          ∧ doc !! "recent_contracts" = Some (VStr "")))
    ∧ Forall (λ c, ∃ d, c = VDict d) contracts
    ∧ doc !! "total_contracts" = Some (VInt (Z.of_nat (length contracts)))
    ∧ doc !! "active_contracts"
      = Some (VInt (Z.of_nat
                      (length (List.filter (has_status "active") contracts))))
    ∧ doc !! "completed_contracts"
      = Some (VInt (Z.of_nat
                      (length (List.filter (has_status "completed") contracts))))
    ∧ (length (List.filter (has_status "active") contracts)
       + length (List.filter (has_status "completed") contracts)
       ≤ length contracts)%nat
    ∧ (∀ amounts,
         Forall2 (λ c n, ∃ d, c = VDict d
                              ∧ dict_get d "value" (VInt 0) = VInt n)
           contracts amounts →
         doc !! "total_contract_value"
         = Some (VInt (foldr Z.add 0 amounts))).
Proof.
  intros H. unfold _verify_pspc in H.
  rewrite bind_run in H. cbn [session_get http fst snd] in H.
  fold (pspc_request bn ep h) in H.
  destruct (http_at W _ _) as [e|body] eqn:Hanswer; [done|].
  rewrite bind_run, lift_run in H.
  destruct (as_dict body) as [e|d] eqn:Hbody; [done|].
  assert (body = VDict d) as -> by (destruct body; try done; by injection Hbody as ->).
  rewrite bind_run, lift_run in H.
  destruct (py_iter (dict_get d "contracts" (VList []))) as [e|cs] eqn:Hcs;
    [done|].
  rewrite bind_run, lift_run in H.
  destruct (sum_values (VInt 0) cs) as [e|total] eqn:Hsum; [done|].
  rewrite bind_run, lift_run in H.
  destruct (with_status "completed" cs) as [e|completed] eqn:Hcompleted; [done|].
  rewrite bind_run, lift_run in H.
  destruct (with_status "active" cs) as [e|active] eqn:Hactive; [done|].
  rewrite bind_run, lift_run in H.
  destruct (py_slice_to 10 (dict_get d "contracts" (VList []))) as [e|recent]
    eqn:Hrecent; [done|].
  injection H as <- _.
  apply with_status_filter in Hcompleted as ->.
  apply with_status_filter in Hactive as ->.
  pose proof (sum_values_dicts cs _ _ Hsum) as Hdicts.
  eexists d, _, cs.
  split; [reflexivity|]. split; [reflexivity|]. split.
  { destruct (dict_get d "contracts" (VList [])) as [| | | |str|l|d']; try done.
    - right. injection Hcs as <-. injection Hrecent as <-.
      destruct str as [|a str]; [split; [done|]; split; [done|by vm_compute]|].
      apply Forall_cons in Hdicts as [[? [=]] _].
    - left. injection Hcs as <-. injection Hrecent as <-.
      split; [done|by vm_compute]. }
  split; [done|].
  split; [by vm_compute|]. split; [by vm_compute|]. split; [by vm_compute|].
  split; [apply filter_status_disjoint|].
  intros amounts Hamounts.
  rewrite (sum_values_ints cs amounts 0 Hamounts) in Hsum.
  injection Hsum as <-. by vm_compute.
Qed.

(** ** The cache beyond one key *)

Lemma cache_lookup_unconfigured W bn sys s :
  endpoints sys = None →
  cache (cache_lookup W bn sys s).2 = cache s
  ∧ net_calls (cache_lookup W bn sys s).2 = net_calls s
  ∧ db_calls (cache_lookup W bn sys s).2 = db_calls s
  ∧ ((cache_lookup W bn sys s).1 = inr None
     ∨ (cache_lookup W bn sys s).1 = inl (KeyError (system_repr sys))).
Proof.
  intros Hep. unfold cache_lookup, get_cache. rewrite bind_run. simpl.
  destruct (cache s !! cache_key sys bn) as [[d t]|]; [|by auto].
  rewrite bind_run. simpl. rewrite bind_run.
  unfold lift, endpoints_getitem. rewrite Hep. simpl. auto.
Qed.

Lemma verify_with_system_stamp W bn sys s :
  cache (_verify_with_system W bn sys s).2 = cache s
  ∨ ∃ d n, cache (_verify_with_system W bn sys s).2
           = <[cache_key sys bn := (d, utcnow_at W n)]> (cache s).
Proof.
  destruct (endpoints sys) as [ep|] eqn:Hep.
  - destruct (cache_lookup_ok W bn sys ep s Hep) as ([d|] & s0 & Hl);
      pose proof (cache_lookup_cache W bn sys s) as Hc; rewrite Hl in Hc;
      simpl in Hc.
    + rewrite (verify_with_system_hit W bn sys s d s0 Hl). by left.
    + destruct (get_auth_headers_run sys ep s0 Hep) as [h Hh].
      rewrite (verify_with_system_miss W bn sys ep s s0 h Hep Hl Hh).
      rewrite after_fetch_cache, (fetch_cache W bn sys ep h s0), Hc.
      destruct (fetch W bn sys ep h s0).1; eauto.
  - left. destruct (cache_lookup_unconfigured W bn sys s Hep) as (Hc & _ & _ & Hr).
    unfold _verify_with_system. rewrite bind_run.
    destruct (cache_lookup W bn sys s) as [r s0]. simpl in *.
    destruct Hr as [-> | ->]; [|done].
    rewrite bind_run. unfold lift, endpoints_getitem. by rewrite Hep.
Qed.

(** X5. A call for one registry and one business leaves the cache entry
    of every other registry and of every other business untouched. *)
Theorem verify_with_system_keeps_other_entries W bn sys s sys' bn' :
  (sys', bn') ≠ (sys, bn) →
  cache (_verify_with_system W bn sys s).2 !! cache_key sys' bn'
  = cache s !! cache_key sys' bn'.
Proof.
  intros Hne.
  destruct (verify_with_system_stamp W bn sys s) as [-> | (d & t & ->)]; [done|].
  apply lookup_insert_ne. intros Hk.
  apply cache_key_inj in Hk as [-> ->]. done.
Qed.

(** X4. A call for a registry that has no endpoint (BC_REG, AB_REG, CCAB,
    SUPPLY_NATION) raises [KeyError] for that registry, whatever the
    cache holds; it sends no request, writes no audit row and leaves the
    cache as it is.  The [NotImplementedError] of line 172 is never
    raised by such a call. *)
Theorem unconfigured_system_is_refused W bn sys s :
  endpoints sys = None →
  let out := _verify_with_system W bn sys s in
  out.1 = inl (KeyError (system_repr sys))
  ∧ cache out.2 = cache s
  ∧ net_calls out.2 = net_calls s
  ∧ db_calls out.2 = db_calls s.
Proof.
  intros Hep out. subst out.
  destruct (cache_lookup_unconfigured W bn sys s Hep) as (Hc & Hn & Hd & Hr).
  unfold _verify_with_system. rewrite bind_run.
  destruct (cache_lookup W bn sys s) as [r s0]. cbn [fst snd] in *.
  destruct Hr as [-> | ->]; [|done].
  rewrite bind_run. unfold lift, endpoints_getitem. by rewrite Hep.
Qed.

(** X6. When a call that found nothing usable in the cache returns a
    document, the document is cached with the time read right after the
    fetch, and any later call for the same registry and business made
    less than the TTL after that time returns the same document without
    a request and without an audit row. *)
Theorem fetched_document_is_served_again W bn sys ep s s0 d :
  endpoints sys = Some ep →
  cache_lookup W bn sys s = (inr None, s0) →
  (_verify_with_system W bn sys s).1 = inr d →
  let s' := (_verify_with_system W bn sys s).2 in
  let stored := utcnow_at W (clock_reads s0) in
  cache s' !! cache_key sys bn = Some (d, stored)
  ∧ ∀ s2,
      cache s2 !! cache_key sys bn = Some (d, stored) →
      utcnow_at W (clock_reads s2) - stored < timedelta_seconds (cache_ttl ep) →
      (_verify_with_system W bn sys s2).1 = inr d
      ∧ net_calls (_verify_with_system W bn sys s2).2 = net_calls s2
      ∧ db_calls (_verify_with_system W bn sys s2).2 = db_calls s2.
Proof.
  intros Hep Hl Hd s' stored.
  destruct (get_auth_headers_run sys ep s0 Hep) as [h Hh].
  assert (cache s' !! cache_key sys bn = Some (d, stored)) as Hstored.
  { subst s'. revert Hd.
    rewrite (verify_with_system_miss W bn sys ep s s0 h Hep Hl Hh).
    intros Hd.
    pose proof (after_fetch_result W bn sys (fetch W bn sys ep h s0).1
                  (fetch W bn sys ep h s0).2) as Hres.
    rewrite Hd in Hres. rewrite after_fetch_cache, Hres.
    rewrite (fetch_clock W bn sys ep h s0). apply lookup_insert_eq. }
  split; [exact Hstored|].
  intros s2 Hc2 Hfresh.
  rewrite (verify_with_system_hit W bn sys s2 d (tick s2)); [done|].
  by eapply cache_lookup_hit.
Qed.

(** ** Audit rows *)

Lemma log_integration_run W sys bn success error s :
  _log_integration W sys bn success error s =
  (match db_at W (length (db_calls s))
           (log_row W bn sys success error (clock_reads s)) with
   | Some e => inl e
   | None => inr ()
   end,
   {| cache := cache s; clock_reads := S (S (clock_reads s));
      net_calls := net_calls s;
      db_calls := db_calls s ++ [log_row W bn sys success error (clock_reads s)] |}).
Proof. reflexivity. Qed.

Lemma fetch_db W bn sys ep h : preserves db_calls (fetch W bn sys ep h).
Proof.
  unfold fetch, _verify_cra, _verify_ised, _verify_isc, _verify_pspc,
    _verify_provincial, session_get, session_post.
  destruct sys; frame.
Qed.

Lemma cache_lookup_db W bn sys : preserves db_calls (cache_lookup W bn sys).
Proof. unfold cache_lookup. frame. Qed.

Lemma after_fetch_rows W bn sys r s1 :
  ∃ rows,
    db_calls (after_fetch W bn sys r s1).2 = db_calls s1 ++ rows
    ∧ match (after_fetch W bn sys r s1).1 with
      | inr _ => ∃ n, rows = [log_row W bn sys true None n]
      | inl _ =>
          ∃ before msg n,
            rows = before ++ [log_row W bn sys false (Some msg) n]
            ∧ (before = [] ∨ ∃ m, before = [log_row W bn sys true None m])
      end.
Proof.
  unfold after_fetch. destruct r as [e|data].
  - rewrite log_integration_run. eexists [_]. split.
    + by destruct (db_at _ _ _).
    + destruct (db_at _ _ _); cbn [fst];
        (exists []); exists (str_exn e); exists (clock_reads s1); auto.
  - rewrite log_integration_run.
    cbn [cache clock_reads net_calls db_calls].
    destruct (db_at _ _ _) as [e|] eqn:Hdb.
    + rewrite log_integration_run. cbn [cache clock_reads net_calls db_calls].
      destruct (db_at W (length (_ ++ _)) _) as [e2|]; cbn [fst snd db_calls];
        (eexists [_; _]; split; [by rewrite <- app_assoc|]);
        eexists [_], (str_exn e), _; (split; [reflexivity|]); right; eauto.
    + eexists [_]. split; [done|]. cbn [fst]. eauto.
Qed.

(** X7. The audit rows a call appends are rows for its business and
    registry with action [verify].  It appends none exactly when it sends
    no request (the cache answered).  A call that returns after a request
    appends one row, with success and no error message.  A call that
    raises has appended a row with failure and an error message last,
    after at most one row with success. *)
Theorem every_request_is_logged W bn sys ep s :
  endpoints sys = Some ep →
  let out := _verify_with_system W bn sys s in
  ∃ rows,
    db_calls out.2 = db_calls s ++ rows
    ∧ (rows = [] ↔ net_calls out.2 = net_calls s)
    ∧ (∀ d, out.1 = inr d →
         rows = [] ∨ ∃ n, rows = [log_row W bn sys true None n])
    ∧ (∀ e, out.1 = inl e →
         ∃ before msg n,
           rows = before ++ [log_row W bn sys false (Some msg) n]
           ∧ (before = [] ∨ ∃ m, before = [log_row W bn sys true None m])).
Proof.
  intros Hep out. subst out.
  destruct (cache_lookup_ok W bn sys ep s Hep) as ([d|] & s0 & Hl);
    pose proof (cache_lookup_net W bn sys s) as Hn;
    pose proof (cache_lookup_db W bn sys s) as Hd;
    rewrite Hl in Hn, Hd; simpl in Hn, Hd.
  - rewrite (verify_with_system_hit W bn sys s d s0 Hl). exists [].
    cbn [fst snd]. rewrite app_nil_r. split; [done|]. split; [done|].
    split; [by left|]. intros e [=].
  - destruct (get_auth_headers_run sys ep s0 Hep) as [h Hh].
    rewrite (verify_with_system_miss W bn sys ep s s0 h Hep Hl Hh).
    destruct (after_fetch_rows W bn sys (fetch W bn sys ep h s0).1
                (fetch W bn sys ep h s0).2) as (rows & Hrows & Hshape).
    destruct (fetch_net W bn sys ep h s0 Hep) as (req & Hreq).
    exists rows. rewrite Hrows, (fetch_db W bn sys ep h s0), Hd.
    rewrite after_fetch_net, Hreq, Hn.
    split; [done|]. split.
    { split.
      - intros ->. destruct (after_fetch _ _ _ _ _).1.
        + destruct Hshape as (before & msg & n & Hb & _).
          by destruct before.
        + by destruct Hshape as (n & [=]).
      - intros H. by apply snoc_ne in H. }
    split.
    + intros d Hd'. rewrite Hd' in Hshape. by right.
    + intros e He. by rewrite He in Hshape.
Qed.

(** ** A document behind a failed call *)

(** X8. When the adapter has fetched a document and the audit row for the
    success cannot be written, the call raises, so the run reports the
    registry as failed; the document is cached all the same, and a later
    call within the TTL returns it from the cache, with no request and no
    audit row. *)
Theorem unlogged_document_stays_cached W bn sys ep s s0 headers data s1 e :
  endpoints sys = Some ep →
  cache_lookup W bn sys s = (inr None, s0) →
  _get_auth_headers sys s0 = (inr headers, s0) →
  fetch W bn sys ep headers s0 = (inr data, s1) →
  db_at W (length (db_calls s1))
    (log_row W bn sys true None (S (clock_reads s1))) = Some e →
  let out := _verify_with_system W bn sys s in
  let stored := utcnow_at W (clock_reads s1) in
  (∃ e', out.1 = inl e')
  ∧ cache out.2 !! cache_key sys bn = Some (data, stored)
  ∧ ∀ s2,
      cache s2 !! cache_key sys bn = Some (data, stored) →
      utcnow_at W (clock_reads s2) - stored < timedelta_seconds (cache_ttl ep) →
      (_verify_with_system W bn sys s2).1 = inr data
      ∧ net_calls (_verify_with_system W bn sys s2).2 = net_calls s2
      ∧ db_calls (_verify_with_system W bn sys s2).2 = db_calls s2.
Proof.
  intros Hep Hl Hh Hf Hdb out stored. subst out stored.
  rewrite (verify_with_system_miss W bn sys ep s s0 headers Hep Hl Hh), Hf.
  cbn [fst snd]. split; [by eapply after_fetch_log_failure|].
  split; [by rewrite after_fetch_cache, lookup_insert_eq|].
  intros s2 Hc Hfresh.
  rewrite (verify_with_system_hit W bn sys s2 data (tick s2)); [done|].
  by eapply cache_lookup_hit.
Qed.

(** ** Where merged fields go *)

(** X9. Merging a document files it under the value of its [system] field
    ([None] when it has none): every other field of the document is in
    that section with the document's value, fields the section had and
    the document lacks are kept, [system] itself is never copied, and the
    sections of other registries are untouched. *)
Theorem merge_files_fields_under_the_tag consolidated (d : Data) k :
  to_hkey (dict_get d "system" VNone) = inr k →
  ∃ merged section,
    _merge_verification_data consolidated (VDict d) = inr merged
    ∧ merged !! k = Some section
    ∧ (∀ k', k' ≠ k → merged !! k' = consolidated !! k')
    ∧ (∀ field v, field ≠ "system" → d !! field = Some v →
         section !! field = Some v)
    ∧ (∀ field, field = "system" ∨ d !! field = None →
         section !! field = default ∅ (consolidated !! k) !! field).
Proof.
  intros Hk. unfold _merge_verification_data.
  simpl. rewrite Hk. simpl. rewrite merge_section. eexists _, _. split; [reflexivity|].
  split; [apply lookup_insert_eq|].
  split; [intros k' Hne; by apply lookup_insert_ne|].
  split.
  - intros field v Hne Hv. apply lookup_union_Some_l.
    by rewrite lookup_delete_ne.
  - intros field [-> | Hnone].
    + rewrite lookup_union_r; [done|]. apply lookup_delete_eq.
    + rewrite lookup_union_r; [done|].
      destruct (decide (field = "system")) as [->|Hne];
        [apply lookup_delete_eq|by rewrite lookup_delete_ne].
Qed.

(** ** Addresses *)






(** The separator is not escaped: fields that contain it can make two
    different addresses compare equal. *)
Lemma separator_collision :
  _normalize_address (address "1|A" "B" "C" "D" "E")
  = _normalize_address (address "1" "A|B" "C" "D" "E").
Proof. vm_compute. reflexivity. Qed.

(** ** The status rule *)

Lemma check_status_spec c d fl :
  check_status c (VDict d) = inr fl →
  ∀ flag, flag ∈ fl ↔
    ∃ other name, status_mismatch c d other name ∧ flag = status_flag other name.
Proof.
  unfold check_status, status_mismatch, other_status, ok. intros H flag.
  destruct (c !! HStr "CRA") as [cra|] eqn:Hcra.
  2: { injection H as <-. split; [by intros ?%elem_of_nil|].
       by intros (? & ? & (? & ? & _) & _). }
  cbn [py_get mbind result_bind ok] in H.
  destruct (member_of (dict_get d "system" VNone) _) as [name|] eqn:Hname.
  2: { injection H as <-. split; [by intros ?%elem_of_nil|].
       intros (o & n & (? & _ & _ & Hs & Hin & _) & _).
       assert (member_of (dict_get d "system" VNone)
                 ["ISED"; "ON_ONBIS"; "QC_REQ"] = Some n) as Hm
         by (by apply member_of_spec).
       congruence. }
  apply member_of_spec in Hname as [Hname Hin].
  destruct (member_of (py_or _ _) _) as [other|] eqn:Hother.
  2: { injection H as <-. split; [by intros ?%elem_of_nil|].
       intros (o & n & (? & _ & _ & _ & _ & Hs & Hin') & _).
       assert (member_of
                 (py_or (py_or (dict_get d "business_status" VNone)
                               (dict_get d "corporate_status" VNone))
                        (dict_get d "statut" VNone))
                 ["dissolved"; "inactive"; "fermée"] = Some o) as Hm
         by (by apply member_of_spec).
       congruence. }
  apply member_of_spec in Hother as [Hother Hin'].
  destruct (py_eq_str (dict_get cra "business_status" VNone) "active") eqn:Hact;
    injection H as <-.
  - apply py_eq_str_spec in Hact. split.
    + intros ->%list_elem_of_singleton. exists other, name.
      split; [|done]. by exists cra.
    + intros (o & n & (cra' & [= <-] & _ & Hs & _ & Ho & _) & ->).
      rewrite Hname in Hs. rewrite Hother in Ho. simplify_eq.
      by apply list_elem_of_singleton.
  - split; [by intros ?%elem_of_nil|].
    intros (o & n & (cra' & [= <-] & Ha & _) & _).
    apply py_eq_str_spec in Ha. congruence.
Qed.

Lemma status_flag_is_status o n : is_status_flag (status_flag o n) = true.
Proof. reflexivity. Qed.

(** X11. The consistency check raises a status flag if and only if CRA is
    consolidated with [business_status] equal to [active], the new
    document is tagged ISED, ON_ONBIS or QC_REQ, and the first non-empty
    of its [business_status], [corporate_status] and [statut] is
    [dissolved], [inactive] or [fermée]; the flag then names that status
    and that tag. *)
Theorem status_flag_iff_active_with_cra_only consolidated new_data system flags :
  _check_data_inconsistencies consolidated (VDict new_data) system = inr flags →
  ∀ flag,
    flag ∈ flags ∧ is_status_flag flag = true
    ↔ ∃ other name,
        status_mismatch consolidated new_data other name
        ∧ flag = status_flag other name.
Proof.
  unfold _check_data_inconsistencies. intros H flag.
  apply result_bind_inr in H as (fa & Ha & H).
  apply result_bind_inr in H as (fs & Hs & H).
  apply result_bind_inr in H as (fo & Ho & H).
  injection H as <-.
  apply check_addresses_flags in Ha. apply check_ownership_flags in Ho.
  pose proof (check_status_spec _ _ _ Hs flag) as Hspec.
  rewrite <- Hspec. rewrite !elem_of_app. split.
  - intros [[Hin | [Hin | Hin]] Hflag]; [|done|].
    + destruct Ha as [-> | ->]; [by apply elem_of_nil in Hin|].
      apply list_elem_of_singleton in Hin as ->. done.
    + destruct Ho as [-> | ->]; [by apply elem_of_nil in Hin|].
      apply list_elem_of_singleton in Hin as ->. done.
  - intros Hin. split; [auto|].
    apply Hspec in Hin as (o & n & _ & ->). apply status_flag_is_status.
Qed.

(** ** What the consolidated record holds *)

Lemma process_results_sections l : ∀ r0 r,
  NoDup l.*1 →
  well_tagged l →
  process_results r0 l = inr r →
  (∀ k, (∀ sys, sys ∈ succeeded l → tag sys ≠ k) →
        consolidated_data r !! k = consolidated_data r0 !! k)
  ∧ (∀ sys d, (sys, inr (VDict d)) ∈ l →
        consolidated_data r0 !! tag sys = None →
        consolidated_data r !! tag sys = Some (delete "system" d)).
Proof.
  induction l as [|[sys0 o] l IH]; intros r0 r Hnd Hwt H.
  - injection H as <-. split; [done|]. by intros sys d ?%elem_of_nil.
  - cbn [fmap list_fmap fst] in Hnd. apply NoDup_cons in Hnd as [Hnotin Hnd].
    apply Forall_cons in Hwt as [Hhd Hwt]. simpl in H.
    apply result_bind_inr in H as (r1 & H1 & H).
    destruct (IH r1 r Hnd Hwt H) as [Hother Hown]. clear IH.
    assert (∀ sys x, (sys, x) ∈ l → sys ≠ sys0) as Hfresh.
    { intros sys x Hin ->. apply Hnotin, list_elem_of_fmap. by exists (sys0, x). }
    destruct o as [e|data].
    + apply process_result_failure in H1 as (_ & E & _). rewrite <- E.
      split; [exact Hother|].
      intros sys d [[=]|Hin]%elem_of_cons. by apply Hown.
    + apply process_result_success in H1 as (d0 & fl & -> & _ & E & _);
        [|by apply Hhd].
      split.
      * intros k Hk. rewrite Hother.
        -- rewrite E, lookup_insert_ne; [done|]. apply Hk. by left.
        -- intros sys Hin. apply Hk. by right.
      * intros sys d [[= -> ->]|Hin]%elem_of_cons Hnone.
        -- rewrite Hother.
           ++ rewrite E, lookup_insert_eq, Hnone. simpl.
              by rewrite (right_id_L ∅ (∪)).
           ++ intros sys Hin%elem_of_succeeded Heq. destruct Hin as [x Hin].
              apply (inj tag) in Heq as ->. by eapply Hfresh.
        -- apply Hown; [done|]. rewrite E, lookup_insert_ne; [done|].
           intros Heq. apply (inj tag) in Heq as ->. by eapply Hfresh.
Qed.

(** X12. In a run that returns, the section of [consolidated_data] of a
    registry that handed back a document is that document without its
    [system] field. *)
Theorem consolidated_sections_are_the_documents W bn s r s' sys d :
  cache_wf (cache s) →
  verify_business_across_systems W bn s = (inr r, s') →
  (sys, inr (VDict d)) ∈ adapter_outcomes W bn s →
  consolidated_data r !! tag sys = Some (delete "system" d).
Proof.
  intros Hwf Hv Hin. apply verify_returns in Hv as (vr & Hp & ->).
  cbn [with_score consolidated_data].
  eapply process_results_sections in Hp as [_ Hown];
    [|rewrite outcomes_systems; apply selected_NoDup
     |by apply outcomes_well_tagged].
  by apply Hown.
Qed.

(** ** Repeated flags *)


Lemma ownership_mismatch_isc c :
  ownership_mismatch c → is_Some (c !! HStr "ISC").
Proof. intros (isc & _ & _ & _ & -> & _). eauto. Qed.

Lemma ownership_hits_app l1 l2 :
  ownership_hits (l1 ++ l2) = (ownership_hits l1 + ownership_hits l2)%nat.
Proof. unfold ownership_hits. by rewrite List.filter_app, length_app. Qed.

Lemma failure_flag_neq_ownership sys e : failure_flag sys e ≠ ownership_flag.
Proof. done. Qed.

Lemma check_flags_ownership_hits c d sys fl :
  _check_data_inconsistencies c d sys = inr fl →
  (ownership_mismatch c → ownership_hits fl = 1%nat)
  ∧ (¬ ownership_mismatch c → ownership_hits fl = 0%nat).
Proof.
  unfold _check_data_inconsistencies. intros H.
  apply result_bind_inr in H as (fa & Ha & H).
  apply result_bind_inr in H as (fs & Hs & H).
  apply result_bind_inr in H as (fo & Ho & H).
  injection H as <-.
  pose proof (check_ownership_spec _ _ Ho) as Hspec.
  apply check_addresses_flags in Ha. apply check_status_flags in Hs.
  apply check_ownership_flags in Ho.
  rewrite !ownership_hits_app.
  assert (ownership_hits fa = 0%nat) as -> by (by destruct Ha as [-> | ->]).
  assert (ownership_hits fs = 0%nat) as ->.
  { destruct Hs as [-> | (o & t & ->)]; [done|].
    unfold ownership_hits. cbn [List.filter].
    rewrite bool_decide_eq_false_2; [done|apply status_flag_neq_ownership]. }
  destruct Ho as [-> | ->].
  - split; [|done]. intros Hm. apply Hspec in Hm. by apply elem_of_nil in Hm.
  - split; [done|]. intros Hm. destruct Hm. apply Hspec.
    by apply list_elem_of_singleton.
Qed.

Lemma process_result_hits r0 sys o r :
  (∀ d, o = inr d → tagged sys d) →
  process_result r0 sys o = inr r →
  match o with
  | inl _ =>
      consolidated_data r = consolidated_data r0
      ∧ ownership_hits (red_flags r) = ownership_hits (red_flags r0)
  | inr _ =>
      (∃ section,
         consolidated_data r = <[tag sys := section]> (consolidated_data r0))
      ∧ (ownership_mismatch (consolidated_data r) →
           ownership_hits (red_flags r) = S (ownership_hits (red_flags r0)))
      ∧ (¬ ownership_mismatch (consolidated_data r) →
           ownership_hits (red_flags r) = ownership_hits (red_flags r0))
  end.
Proof.
  intros Ht H. destruct o as [e|data].
  - apply process_result_failure in H as (_ & -> & ->). split; [done|].
    rewrite ownership_hits_app. unfold ownership_hits at 2. cbn [List.filter].
    rewrite bool_decide_eq_false_2; [simpl; lia|apply failure_flag_neq_ownership].
  - apply process_result_success in H as (d & fl & -> & _ & E2 & E3 & E4);
      [|by apply Ht].
    apply check_flags_ownership_hits in E3 as [Hyes Hno].
    split; [eauto|]. rewrite E4, ownership_hits_app.
    split; intros Hm; [rewrite Hyes by done|rewrite Hno by done]; lia.
Qed.

Lemma process_results_without_isc l : ∀ r0 r,
  Forall (λ p, p.1 ≠ ISC) l →
  well_tagged l →
  consolidated_data r0 !! HStr "ISC" = None →
  process_results r0 l = inr r →
  consolidated_data r !! HStr "ISC" = None
  ∧ ownership_hits (red_flags r) = ownership_hits (red_flags r0).
Proof.
  induction l as [|[sys o] l IH]; intros r0 r Hne Hwt Hnone H.
  - by injection H as <-.
  - apply Forall_cons in Hne as [Hsys Hne].
    apply Forall_cons in Hwt as [Hhd Hwt]. simpl in H, Hsys.
    apply result_bind_inr in H as (r1 & H1 & H).
    apply process_result_hits in H1; [|done].
    assert (consolidated_data r1 !! HStr "ISC" = None
            ∧ ownership_hits (red_flags r1) = ownership_hits (red_flags r0))
      as [Hnone1 Hhits1].
    { destruct o as [e|data].
      - destruct H1 as [-> ->]. done.
      - destruct H1 as ((section & Hc) & _ & Hno).
        assert (consolidated_data r1 !! HStr "ISC" = None) as Hn.
        { rewrite Hc, lookup_insert_ne; [done|].
          intros Heq. by apply (inj tag sys ISC) in Heq. }
        split; [done|]. apply Hno. intros Hm%ownership_mismatch_isc.
        rewrite Hn in Hm. by destruct Hm. }
    destruct (IH r1 r Hne Hwt Hnone1 H) as [? ->]. done.
Qed.


Lemma outcomes_from_isc W bn s :
  ∃ o1 o2 o3 rest,
    adapter_outcomes W bn s = (CRA, o1) :: (ISED, o2) :: (ISC, o3) :: rest
    ∧ Forall (λ p, p.1 ≠ ISC ∧ p.1 ≠ ISED) rest.
Proof.
  pose proof (outcomes_systems W bn s) as Hs.
  destruct (adapter_outcomes W bn s) as [|[s1 o1] [|[s2 o2] [|[s3 o3] rest]]];
    destruct (selected_cases bn) as [E | [E | E]]; rewrite E in Hs;
    try discriminate Hs.
  all: injection Hs as -> -> -> Hrest; exists o1, o2, o3, rest; split; [done|].
  all: apply (Forall_fmap fst (λ sys, sys ≠ ISC ∧ sys ≠ ISED) rest);
    change (fst <$> rest) with (list_fmap _ _ fst rest);
    rewrite Hrest; repeat constructor; done.
Qed.


(** ** A percentage that is no number *)

(** X14. When ISED and ISC both hand back a document and the ownership
    percentage of the ISC document cannot be compared with 51 (it is
    [None] when the registry's answer lacks the field), the run raises
    instead of returning a result. *)
Theorem non_numeric_percentage_aborts_the_run W bn s ised isc :
  cache_wf (cache s) →
  (ISED, inr ised) ∈ adapter_outcomes W bn s →
  (ISC, inr (VDict isc)) ∈ adapter_outcomes W bn s →
  is_ok (py_ge_int (dict_get isc "indigenous_ownership_percentage" (VInt 0)) 51)
  = false →
  ∃ e, (verify_business_across_systems W bn s).1 = inl e.
Proof.
  intros Hwf Hised Hisc Hbad.
  destruct (verify_business_across_systems W bn s) as [[e|r] s'] eqn:Hv;
    [by eauto|].
  exfalso. apply verify_returns in Hv as (vr & Hp & _).
  pose proof (outcomes_well_tagged W bn s Hwf) as Hwt.
  destruct (outcomes_from_isc W bn s) as (o1 & o2 & o3 & rest & Hshape & _).
  assert (o2 = inr ised) as ->.
  { eapply (outcome_unique W bn s ISED); [|done]. rewrite Hshape. set_solver. }
  assert (o3 = inr (VDict isc)) as ->.
  { eapply (outcome_unique W bn s ISC); [|done]. rewrite Hshape. set_solver. }
  rewrite Hshape in Hp, Hwt.
  apply Forall_cons in Hwt as [Ht1 Hwt]. apply Forall_cons in Hwt as [Ht2 Hwt].
  apply Forall_cons in Hwt as [Ht3 Hwt].
  cbn [process_results] in Hp.
  apply result_bind_inr in Hp as (r1 & H1 & Hp).
  apply result_bind_inr in Hp as (r2 & H2 & Hp).
  apply result_bind_inr in Hp as (r3 & H3 & _).
  assert (consolidated_data r2 !! HStr "ISC" = None) as Hnone2.
  { apply (process_results_without_isc [(CRA, o1); (ISED, inr ised)]
             (initial_results bn (utcnow_at W (clock_reads s)))).
    - by repeat constructor.
    - by repeat constructor.
    - done.
    - cbn [process_results]. rewrite H1. cbn [mbind result_bind].
      rewrite H2. done. }
  apply process_result_success in H2 as (d2 & fl2 & -> & _ & E2 & _);
    [|by apply Ht2].
  apply process_result_success in H3 as (d3 & fl3 & [= <-] & _ & E3 & Hfl & _);
    [|by apply Ht3].
  unfold _check_data_inconsistencies in Hfl.
  apply result_bind_inr in Hfl as (fa & _ & Hfl).
  apply result_bind_inr in Hfl as (fs & _ & Hfl).
  apply result_bind_inr in Hfl as (fo & Ho & _).
  assert (consolidated_data r3 !! HStr "ISC" = Some (delete "system" isc ∪ ∅))
    as Hsec.
  { rewrite E3. change (HStr "ISC") with (tag ISC) in Hnone2 |- *.
    by rewrite lookup_insert_eq, Hnone2. }
  assert (is_Some (consolidated_data r3 !! HStr "ISED")) as [section Hsec'].
  { rewrite E3, lookup_insert_ne by (by intros [=]). rewrite E2.
    change (HStr "ISED") with (tag ISED). rewrite lookup_insert_eq. eauto. }
  unfold check_ownership in Ho. rewrite Hsec, Hsec' in Ho.
  rewrite !dict_get_section in Ho by done.
  destruct (py_ge_int _ 51); [discriminate Ho|discriminate Hbad].
Qed.

(** ** The score of a run *)

(** A run raises three flags at most for each registry it asked. *)
Lemma check_flags_length c d sys fl :
  _check_data_inconsistencies c d sys = inr fl → (length fl ≤ 3)%nat.
Proof.
  unfold _check_data_inconsistencies. intros H.
  apply result_bind_inr in H as (fa & Ha & H).
  apply result_bind_inr in H as (fs & Hs & H).
  apply result_bind_inr in H as (fo & Ho & H).
  injection H as <-.
  apply check_addresses_flags in Ha. apply check_status_flags in Hs.
  apply check_ownership_flags in Ho. rewrite !length_app.
  destruct Ha as [-> | ->], Hs as [-> | (o & t & ->)], Ho as [-> | ->];
    simpl; lia.
Qed.

Lemma process_results_flags_bound l : ∀ r0 r,
  well_tagged l →
  process_results r0 l = inr r →
  (length (red_flags r) ≤ length (red_flags r0) + 3 * length l)%nat.
Proof.
  induction l as [|[sys o] l IH]; intros r0 r Hwt H.
  - injection H as <-. simpl. lia.
  - apply Forall_cons in Hwt as [Hhd Hwt]. simpl in H.
    apply result_bind_inr in H as (r1 & H1 & H).
    specialize (IH r1 r Hwt H). cbn [length].
    destruct o as [e|data].
    + apply process_result_failure in H1 as (_ & _ & E).
      rewrite E, length_app in IH. simpl in IH. lia.
    + apply process_result_success in H1 as (d & fl & _ & _ & _ & Hfl & E);
        [|by apply Hhd].
      apply check_flags_length in Hfl.
      rewrite E, length_app in IH. lia.
Qed.

(** The doubles of the counts a run can reach. *)
Lemma full_score_in_range :
  forallb (λ checked, forallb (full_score_ok checked) (seq 0 16)) (seq 0 6) = true.
Proof. vm_compute. reflexivity. Qed.

(** With five registries checked and one flag, the double exceeds 0.95. *)
Lemma score_above_95_hundredths :
  (19 # 20 < Binary64.to_Q (Binary64.score 5 1))%Q.
Proof. vm_compute. reflexivity. Qed.

(** X15. A run that returns scores 1 if and only if it raised no red
    flag, in exact arithmetic and in the double precision of the code
    alike; with any red flag the double that the code computes is at most
    0.95 plus 1e-15, which rounding can exceed 0.95 by, and so is below
    1. *)
Theorem full_score_iff_no_red_flag W bn s r s' :
  cache_wf (cache s) →
  verify_business_across_systems W bn s = (inr r, s') →
  let double :=
    Binary64.to_Q
      (Binary64.score (length (systems_checked r)) (length (red_flags r))) in
  ((verification_score r == 1)%Q ↔ red_flags r = [])
  ∧ ((double == 1)%Q ↔ red_flags r = [])
  ∧ (red_flags r ≠ [] →
       (double <= (19 # 20) + (1 # 1000000000000000))%Q).
Proof.
  intros Hwf Hv double. subst double.
  apply verify_returns in Hv as (vr & Hp & ->).
  pose proof (outcomes_well_tagged W bn s Hwf) as Hwt.
  pose proof (process_results_flags_bound _ _ _ Hwt Hp) as Hbound.
  apply process_results_spec in Hp as (Hc & _ & _ & Hlen); [|done].
  cbn [with_score verification_score red_flags systems_checked].
  rewrite score_counts.
  simpl in Hc, Hlen, Hbound.
  pose proof (outcomes_length (adapter_outcomes W bn s)) as Hn.
  assert (length (adapter_outcomes W bn s)
          = length (_determine_relevant_systems bn)) as Hsel
    by (by rewrite <- (outcomes_systems W bn s), length_fmap).
  assert (4 ≤ length (_determine_relevant_systems bn) ≤ 5)%nat as Hfive
    by (destruct (selected_cases bn) as [-> | [-> | ->]]; simpl; lia).
  rewrite Hc, length_fmap.
  set (c := length (succeeded (adapter_outcomes W bn s))) in *.
  set (k := length (failures (adapter_outcomes W bn s))) in *.
  set (f := length (red_flags vr)) in *.
  assert (f = 0%nat ↔ red_flags vr = []) as Hnil
    by (subst f; destruct (red_flags vr); simpl; split; (done || lia)).
  assert (full_score_ok c f = true) as Hok.
  { pose proof full_score_in_range as H. rewrite forallb_forall in H.
    specialize (H c). rewrite forallb_forall in H.
    apply H; apply in_seq; lia. }
  assert (f = 0%nat → (clamp (raw_score c f) == 1)%Q) as Hone.
  { intros Hf. unfold clamp, raw_score.
    assert (inject_Z 4 <= inject_Z (Z.of_nat c))%Q as Hq
      by (rewrite <- Zle_Qle; lia).
    rewrite Hf. unfold Z.sub at 1. rewrite inject_Z_plus, inject_Z_opp.
    change (inject_Z (Z.of_nat 0)) with 0%Q. change (inject_Z 4) with 4%Q in *.
    rewrite Q.min_l by lra. by rewrite Q.max_r by lra. }
  assert (f ≠ 0%nat → (clamp (raw_score c f) <= 19 # 20)%Q) as Hless.
  { intros Hf. unfold clamp, raw_score.
    assert (inject_Z (Z.of_nat c) <= inject_Z 5)%Q as Hq
      by (rewrite <- Zle_Qle; lia).
    assert (inject_Z 1 <= inject_Z (Z.of_nat f))%Q as Hq'
      by (rewrite <- Zle_Qle; lia).
    unfold Z.sub at 1. rewrite inject_Z_plus, inject_Z_opp.
    change (inject_Z 4) with 4%Q in *. change (inject_Z 5) with 5%Q in *.
    change (inject_Z 1) with 1%Q in *.
    apply Q.max_lub; [lra|].
    eapply Qle_trans; [apply Q.le_min_r|]. lra. }
  rewrite <- Hnil. split; [|split].
  - split; [|done].
    intros Heq. destruct (decide (f = 0%nat)) as [|Hf]; [done|].
    apply Hless in Hf. rewrite Heq in Hf. lra.
  - unfold full_score_ok in Hok. destruct f as [|f'] eqn:Hf.
    + split; [done|]. intros _.
      apply orb_prop in Hok as [Hlt | Heq]; [|by apply Qeq_bool_eq].
      apply Nat.ltb_lt in Hlt. lia.
    + apply Qle_bool_iff in Hok. split; [|done].
      intros Heq. rewrite Heq in Hok. lra.
  - intros Hf. unfold full_score_ok in Hok. destruct f; [done|].
    by apply Qle_bool_iff in Hok.
Qed.

(** ** Snapshot rows *)

Lemma store_calls W bn r systems : ∀ s s',
  for_each systems (λ system,
     let snapshot := default ∅ (consolidated_data r !! HStr system) in
     now ← utcnow W;
     db_execute W (UpsertSnapshot bn system bn snapshot r now "success")) s
  = (inr (), s') →
  db_calls s' = db_calls s ++ snapshot_calls W bn r (clock_reads s) systems.
Proof.
  induction systems as [|system systems IH]; intros s s' H.
  - injection H as <-. unfold snapshot_calls. simpl. by rewrite app_nil_r.
  - cbn [for_each] in H. rewrite bind_run, bind_run in H.
    cbn [utcnow db_execute fst snd clock_reads db_calls cache net_calls] in H.
    destruct (db_at W _ _) as [e|]; [done|].
    apply IH in H. rewrite H. cbn [clock_reads db_calls].
    unfold snapshot_calls. rewrite imap_cons, Nat.add_0_r, <- app_assoc.
    simpl. do 2 f_equal. apply imap_ext. intros i x _. simpl.
    do 2 f_equal. lia.
Qed.

(** X16. A run that returns has written, after the audit rows, exactly one
    snapshot row per registry in [systems_checked], in that order, with
    status [success], and the snapshot of every row is the empty object:
    the section is looked up under the lower-case value of the registry
    while it is filed under the upper-case name. *)
Theorem stored_snapshots_are_empty W bn s r s' :
  cache_wf (cache s) →
  verify_business_across_systems W bn s = (inr r, s') →
  let s2 := state_after_gather W bn s in
  db_calls s'
  = db_calls s2
    ++ imap (λ i system,
               UpsertSnapshot bn system bn ∅ r
                 (utcnow_at W (clock_reads s2 + i)) "success")
            (systems_checked r).
Proof.
  intros Hwf Hv s2.
  assert (∀ system, system ∈ systems_checked r →
            consolidated_data r !! HStr system = None) as Hnone.
  { intros system Hin.
    pose proof Hv as Hv'. apply verify_returns in Hv' as (vr & Hp & ->).
    apply process_results_spec in Hp as (Hc & _);
      [|by apply outcomes_well_tagged].
    cbn [with_score systems_checked] in Hin. rewrite Hc in Hin. simpl in Hin.
    apply list_elem_of_fmap in Hin as (sys & -> & _).
    by eapply snapshot_is_empty. }
  rewrite verify_run in Hv. cbv zeta in Hv.
  destruct (process_results _ _) as [e|vr]; [done|].
  fold (state_after_gather W bn s) in Hv. fold s2 in Hv.
  destruct (_store_verification_results W bn _ s2) as [[e|[]] s3] eqn:Hst;
    [done|].
  injection Hv as <- <-. unfold _store_verification_results in Hst.
  apply store_calls in Hst. rewrite Hst. f_equal.
  unfold snapshot_calls. apply imap_ext. intros i system Hi.
  rewrite Hnone; [done|]. by eapply list_elem_of_lookup_2.
Qed.

(** ** Which registries a run queries *)

Lemma call_other_key W bn sys s sys' :
  sys' ≠ sys →
  cache (_verify_with_system W bn sys s).2 !! cache_key sys' bn
  = cache s !! cache_key sys' bn.
Proof.
  intros Hne.
  destruct (verify_with_system_stamp W bn sys s) as [-> | (d & t & ->)]; [done|].
  apply lookup_insert_ne. intros Hk. apply cache_key_inj in Hk as [-> _]. done.
Qed.

Lemma call_keeps_entries W bn sys s k :
  is_Some (cache s !! k) → is_Some (cache (_verify_with_system W bn sys s).2 !! k).
Proof.
  intros Hk.
  destruct (verify_with_system_stamp W bn sys s) as [-> | (d & t & ->)]; [done|].
  destruct (decide (k = cache_key sys bn)) as [->|Hne].
  - rewrite lookup_insert_eq. eauto.
  - by rewrite lookup_insert_ne.
Qed.

Lemma configured_ttl sys ep :
  endpoints sys = Some ep → timedelta_seconds (cache_ttl ep) = 3600000000.
Proof. destruct sys; intros [= <-]; reflexivity. Qed.

Lemma call_requests W bn sys ep s :
  endpoints sys = Some ep →
  (∀ d t, cache s !! cache_key sys bn = Some (d, t) → fresh W ep s t) →
  let out := _verify_with_system W bn sys s in
  (∃ reqs, net_calls out.2 = net_calls s ++ reqs
           ∧ registry_of <$> reqs
             = if uncached s bn sys then [Some sys] else [])
  ∧ (is_ok out.1 = true → uncached out.2 bn sys = false).
Proof.
  intros Hep Hfresh out. subst out. unfold uncached.
  destruct (cache s !! cache_key sys bn) as [[d t]|] eqn:Hc.
  - specialize (Hfresh d t eq_refl).
    rewrite (verify_with_system_hit W bn sys s d (tick s))
      by (by eapply cache_lookup_hit).
    cbn [fst snd tick cache net_calls]. rewrite Hc. split; [|done].
    exists []. by rewrite app_nil_r.
  - pose proof (cache_lookup_absent W bn sys s Hc) as Hl.
    destruct (get_auth_headers_run sys ep s Hep) as [h Hh].
    rewrite (verify_with_system_miss W bn sys ep s s h Hep Hl Hh).
    destruct (fetch_request W bn sys ep h s Hep) as (req & Hreq & Hr & _).
    split.
    + exists [req]. rewrite after_fetch_net, Hreq. split; [done|].
      simpl. by rewrite Hr.
    + intros Hok. rewrite after_fetch_cache.
      pose proof (after_fetch_result W bn sys (fetch W bn sys ep h s).1
                    (fetch W bn sys ep h s).2) as Hres.
      destruct (after_fetch _ _ _ _ _).1 as [e|d]; [done|].
      rewrite Hres. by rewrite lookup_insert_eq.
Qed.

Lemma run_all_requests W bn systems : ∀ s,
  NoDup systems →
  Forall (λ sys, is_Some (endpoints sys)) systems →
  lasting W bn systems s →
  let out := run_all (_verify_with_system W bn <$> systems) s in
  (∃ reqs, net_calls out.2 = net_calls s ++ reqs
           ∧ registry_of <$> reqs = Some <$> List.filter (uncached s bn) systems)
  ∧ (∀ sys, sys ∈ succeeded (zip systems out.1) → uncached out.2 bn sys = false)
  ∧ (∀ k, is_Some (cache s !! k) → is_Some (cache out.2 !! k)).
Proof.
  induction systems as [|sys systems IH]; intros s Hnd Hep Hlast out; subst out.
  - simpl. split; [exists []; by rewrite app_nil_r|].
    split; [by intros sys ?%elem_of_nil|done].
  - apply NoDup_cons in Hnd as [Hnotin Hnd].
    apply Forall_cons in Hep as [[ep Hsys] Hep]. cbn [fmap list_fmap run_all].
    destruct (call_requests W bn sys ep s Hsys) as ((reqs1 & Hn1 & Hr1) & Hok1).
    { intros d t Hc. unfold fresh. rewrite (configured_ttl sys ep Hsys).
      eapply Hlast; [|done]. by left. }
    pose proof (call_other_key W bn sys s) as Hframe.
    pose proof (call_keeps_entries W bn sys s) as Hkeep.
    destruct (_verify_with_system W bn sys s) as [r s1]; cbn [fst snd] in *.
    assert (lasting W bn systems s1) as Hlast1.
    { intros sys' d t n Hin Hc. rewrite Hframe in Hc by (by intros ->).
      eapply Hlast; [|done]. by right. }
    destruct (IH s1 Hnd Hep Hlast1) as ((reqs & Hn & Hr) & Hok & Hmono).
    clear IH. change (list_fmap _ _ ?f ?l) with (f <$> l) in *.
    destruct (run_all _ s1) as [rs s2]; cbn [fst snd] in *.
    split; [|split].
    + exists (reqs1 ++ reqs). rewrite Hn, Hn1, <- app_assoc. split; [done|].
      rewrite fmap_app, Hr1, Hr. cbn [List.filter].
      assert (List.filter (uncached s1 bn) systems
              = List.filter (uncached s bn) systems) as ->.
      { apply List.filter_ext_in. intros sys' Hin%list_elem_of_In.
        unfold uncached. rewrite Hframe; [done|]. by intros ->. }
      by destruct (uncached s bn sys).
    + intros sys'. cbn [zip zip_with succeeded].
      destruct r as [e|d].
      * apply Hok.
      * intros [->|Hin]%elem_of_cons; [|by apply Hok].
        specialize (Hok1 eq_refl). unfold uncached in Hok1 |- *.
        destruct (cache s1 !! cache_key sys bn) eqn:Hc; [|done].
        destruct (Hmono (cache_key sys bn)) as [x ->]; [by rewrite Hc|done].
    + intros k Hk. by apply Hmono, Hkeep.
Qed.

Lemma store_net W bn r :
  preserves net_calls (_store_verification_results W bn r).
Proof.
  unfold _store_verification_results. apply for_each_preserves.
  intros system. frame.
Qed.

Lemma verify_state W bn s :
  cache (verify_business_across_systems W bn s).2
  = cache (state_after_gather W bn s)
  ∧ net_calls (verify_business_across_systems W bn s).2
    = net_calls (state_after_gather W bn s).
Proof.
  rewrite verify_run. cbv zeta. fold (state_after_gather W bn s).
  destruct (process_results _ _) as [e|vr]; [done|].
  match goal with
  | |- context [_store_verification_results W bn ?r ?s2] =>
      pose proof (store_cache W bn r s2) as Hc;
      pose proof (store_net W bn r s2) as Hn;
      destruct (_store_verification_results W bn r s2) as [[e|[]] s3]
  end; simpl in *; by rewrite Hc, Hn.
Qed.

Lemma gather_requests W bn s :
  lasting W bn (_determine_relevant_systems bn) s →
  let s2 := state_after_gather W bn s in
  (∃ reqs,
     net_calls s2 = net_calls s ++ reqs
     ∧ registry_of <$> reqs
       = Some <$> List.filter (uncached s bn) (_determine_relevant_systems bn))
  ∧ (∀ sys, sys ∈ succeeded (adapter_outcomes W bn s) →
       uncached s2 bn sys = false)
  ∧ (∀ k, is_Some (cache s !! k) → is_Some (cache s2 !! k)).
Proof.
  intros Hlast. unfold state_after_gather, adapter_outcomes.
  by apply (run_all_requests W bn (_determine_relevant_systems bn) (utcnow W s).2
              (selected_NoDup bn) (selected_have_endpoints bn)).
Qed.

Lemma uncached_cache s s' bn sys :
  cache s = cache s' → uncached s bn sys = uncached s' bn sys.
Proof. unfold uncached. by intros ->. Qed.

(** X17. When the documents cached for a business stay younger than an
    hour, a run sends exactly one request to each selected registry that
    has no cached document, in the order of selection, and none to the
    others; afterwards every registry that handed back a document is
    cached, and what was cached stays cached. *)
Theorem run_queries_exactly_the_uncached_registries W bn s :
  lasting W bn (_determine_relevant_systems bn) s →
  let out := verify_business_across_systems W bn s in
  (∃ reqs,
     net_calls out.2 = net_calls s ++ reqs
     ∧ registry_of <$> reqs
       = Some <$> List.filter (uncached s bn) (_determine_relevant_systems bn))
  ∧ (∀ sys, sys ∈ succeeded (adapter_outcomes W bn s) →
       uncached out.2 bn sys = false)
  ∧ (∀ sys, uncached s bn sys = false → uncached out.2 bn sys = false).
Proof.
  intros Hlast out. subst out.
  destruct (verify_state W bn s) as [Hc Hn].
  destruct (gather_requests W bn s Hlast) as (Hreqs & Hok & Hmono).
  rewrite Hn. split; [exact Hreqs|]. split.
  - intros sys Hin. rewrite (uncached_cache _ _ bn sys Hc). by apply Hok.
  - intros sys Hsys. rewrite (uncached_cache _ _ bn sys Hc).
    unfold uncached in Hsys |- *.
    destruct (cache s !! cache_key sys bn) as [x|] eqn:Hx; [|done].
    destruct (Hmono (cache_key sys bn)) as [y ->]; [by rewrite Hx|done].
Qed.

Lemma call_stamped W bn sys s :
  stamped W (cache s) → stamped W (cache (_verify_with_system W bn sys s).2).
Proof.
  intros Hst.
  destruct (verify_with_system_stamp W bn sys s) as [-> | (d & n & ->)]; [done|].
  intros k d' t. destruct (decide (k = cache_key sys bn)) as [->|Hne].
  - rewrite lookup_insert_eq. intros [= <- <-]. eauto.
  - rewrite lookup_insert_ne by done. apply Hst.
Qed.

Lemma run_all_stamped W bn systems : ∀ s,
  stamped W (cache s) →
  stamped W (cache (run_all (_verify_with_system W bn <$> systems) s).2).
Proof.
  induction systems as [|sys systems IH]; intros s Hst; [done|].
  cbn [fmap list_fmap run_all].
  pose proof (call_stamped W bn sys s Hst) as Hst1.
  destruct (_verify_with_system W bn sys s) as [r s1]; cbn [fst snd] in *.
  specialize (IH s1 Hst1). change (list_fmap _ _ ?f ?l) with (f <$> l) in *.
  by destruct (run_all _ s1) as [rs s2].
Qed.

Lemma verify_stamped W bn s :
  stamped W (cache s) →
  stamped W (cache (verify_business_across_systems W bn s).2).
Proof.
  intros Hst. destruct (verify_state W bn s) as [-> _].
  by apply run_all_stamped.
Qed.

Lemma stamped_lasting W bn systems s :
  short_session W → stamped W (cache s) → lasting W bn systems s.
Proof.
  intros Hshort Hst sys d t n _ Hc. apply Hst in Hc as [i ->]. apply Hshort.
Qed.

Lemma filter_uncached_failures W bn s l :
  (∀ sys, sys ∈ succeeded (adapter_outcomes W bn s) → uncached l bn sys = false) →
  ∀ sys, sys ∈ List.filter (uncached l bn) (_determine_relevant_systems bn) →
         ∃ e, (sys, inl e) ∈ adapter_outcomes W bn s.
Proof.
  intros Hok sys Hin. apply list_elem_of_In, List.filter_In in Hin as [Hin Hun].
  apply list_elem_of_In in Hin. rewrite <- (outcomes_systems W bn s) in Hin.
  apply list_elem_of_fmap in Hin as ([sys' [e|d]] & -> & Hin); simpl in *.
  - eauto.
  - rewrite Hok in Hun; [done|]. apply elem_of_succeeded. eauto.
Qed.

(** X18. Of two consecutive runs for one business in a session shorter
    than an hour, the second sends requests only to registries whose call
    failed in the first, and at most as many as there were failures. *)
Theorem second_run_requeries_only_failures W bn s :
  short_session W →
  stamped W (cache s) →
  let s1 := (verify_business_across_systems W bn s).2 in
  ∃ reqs,
    net_calls (verify_business_across_systems W bn s1).2 = net_calls s1 ++ reqs
    ∧ (length reqs ≤ length (failures (adapter_outcomes W bn s)))%nat
    ∧ ∀ req, req ∈ reqs →
        ∃ sys e, registry_of req = Some sys
                 ∧ (sys, inl e) ∈ adapter_outcomes W bn s.
Proof.
  intros Hshort Hst s1.
  destruct (gather_requests W bn s (stamped_lasting W bn _ s Hshort Hst))
    as (_ & Hok & _).
  assert (∀ sys, sys ∈ succeeded (adapter_outcomes W bn s) →
                 uncached s1 bn sys = false) as Hok1.
  { intros sys Hin. subst s1.
    rewrite (uncached_cache _ _ bn sys (proj1 (verify_state W bn s))).
    by apply Hok. }
  pose proof (verify_stamped W bn s Hst) as Hst1. fold s1 in Hst1.
  destruct (gather_requests W bn s1 (stamped_lasting W bn _ s1 Hshort Hst1))
    as ((reqs & Hn & Hr) & _).
  exists reqs. rewrite (proj2 (verify_state W bn s1)). split; [exact Hn|].
  pose proof (filter_uncached_failures W bn s s1 Hok1) as Hfail.
  split.
  - apply (f_equal length) in Hr. rewrite !length_fmap in Hr. rewrite Hr.
    assert (NoDup (List.filter (uncached s1 bn) (_determine_relevant_systems bn)))
      as Hnd.
    { apply NoDup_ListNoDup, List.NoDup_filter, NoDup_ListNoDup, selected_NoDup. }
    assert (List.filter (uncached s1 bn) (_determine_relevant_systems bn)
            ⊆ (failures (adapter_outcomes W bn s)).*1) as Hsub.
    { intros sys Hin. destruct (Hfail sys Hin) as [e He].
      apply list_elem_of_fmap. exists (sys, e). split; [done|].
      by apply elem_of_failures. }
    rewrite <- (length_fmap fst (failures _)).
    by apply submseteq_length, NoDup_submseteq.
  - intros req Hreq.
    assert (registry_of req ∈ registry_of <$> reqs) as Hin
      by (apply list_elem_of_fmap; eauto).
    rewrite Hr in Hin. apply list_elem_of_fmap in Hin as (sys & Hsys & Hin).
    destruct (Hfail sys Hin) as [e He]. eauto.
Qed.

(** ** A database that is down *)

Lemma after_fetch_db_down W bn sys r s1 :
  db_down W →
  ∃ e, (after_fetch W bn sys r s1).1 = inl e ∧ db_failure W e.
Proof.
  intros Hdown. unfold after_fetch. destruct r as [e0|data].
  - rewrite log_integration_run.
    destruct (db_at W _ _) as [e|] eqn:Hdb.
    + exists e. split; [done|]. by eexists _, _.
    + destruct (Hdown (length (db_calls s1))
                  (log_row W bn sys false (Some (str_exn e0)) (clock_reads s1)))
        as [e He]. congruence.
  - rewrite log_integration_run. cbn [cache clock_reads net_calls db_calls].
    destruct (db_at W _ _) as [e|] eqn:Hdb.
    + rewrite log_integration_run. cbn [cache clock_reads net_calls db_calls].
      destruct (db_at W (length (_ ++ _)) _) as [e2|] eqn:Hdb2.
      * exists e2. split; [done|]. by eexists _, _.
      * match type of Hdb2 with
        | db_at W ?n ?c = None => destruct (Hdown n c) as [e2 He2]
        end. congruence.
    + match type of Hdb with
      | db_at W ?n ?c = None => destruct (Hdown n c) as [e He]
      end. congruence.
Qed.

Lemma run_all_db_down W bn systems : ∀ s,
  db_down W →
  NoDup systems →
  Forall (λ sys, is_Some (endpoints sys)) systems →
  (∀ sys, sys ∈ systems → uncached s bn sys = true) →
  Forall (λ o, ∃ e, o = inl e ∧ db_failure W e)
    (run_all (_verify_with_system W bn <$> systems) s).1.
Proof.
  induction systems as [|sys systems IH]; intros s Hdown Hnd Hep Hun.
  - constructor.
  - apply NoDup_cons in Hnd as [Hnotin Hnd].
    apply Forall_cons in Hep as [[ep Hsys] Hep]. cbn [fmap list_fmap run_all].
    assert (cache s !! cache_key sys bn = None) as Hc.
    { specialize (Hun sys (list_elem_of_here _ _)). unfold uncached in Hun.
      by destruct (cache s !! cache_key sys bn). }
    pose proof (cache_lookup_absent W bn sys s Hc) as Hl.
    destruct (get_auth_headers_run sys ep s Hsys) as [h Hh].
    pose proof (verify_with_system_miss W bn sys ep s s h Hsys Hl Hh) as Hmiss.
    destruct (after_fetch_db_down W bn sys (fetch W bn sys ep h s).1
                (fetch W bn sys ep h s).2 Hdown) as (e & He & Hdb).
    rewrite <- Hmiss in He.
    pose proof (call_other_key W bn sys s) as Hframe.
    destruct (_verify_with_system W bn sys s) as [r s1]; cbn [fst snd] in *.
    subst r.
    assert (∀ sys', sys' ∈ systems → uncached s1 bn sys' = true) as Hun1.
    { intros sys' Hin. unfold uncached. rewrite Hframe by (by intros ->).
      apply Hun. by right. }
    specialize (IH s1 Hdown Hnd Hep Hun1).
    change (list_fmap _ _ ?f ?l) with (f <$> l) in *.
    destruct (run_all _ s1) as [rs s2]; cbn [fst snd] in *.
    constructor; eauto.
Qed.

Lemma zip_failures systems : ∀ (rs : list (result value)),
  Forall (λ o, ∃ e, o = inl e) rs →
  succeeded (zip systems rs) = []
  ∧ Forall (λ p, In (inl p.2) rs) (failures (zip systems rs)).
Proof.
  induction systems as [|sys systems IH]; intros rs Hrs; [by split|].
  destruct rs as [|o rs]; [by split|].
  apply Forall_cons in Hrs as [[e ->] Hrs]. destruct (IH rs Hrs) as [Hs Hf].
  cbn [zip zip_with succeeded failures]. split; [done|].
  constructor; [by left|].
  eapply Forall_impl; [exact Hf|]. intros p Hp. by right.
Qed.

Lemma run_without_success W bn s :
  succeeded (adapter_outcomes W bn s) = [] →
  ∃ r s',
    verify_business_across_systems W bn s = (inr r, s')
    ∧ systems_checked r = []
    ∧ red_flags r = (λ p, failure_flag p.1 p.2) <$> failures (adapter_outcomes W bn s)
    ∧ length (red_flags r) = length (_determine_relevant_systems bn)
    ∧ (verification_score r == 0)%Q.
Proof.
  intros Hs. rewrite verify_run. cbv zeta.
  rewrite (process_results_all_failed _ _ Hs).
  unfold _store_verification_results. cbn [with_score systems_checked
    initial_results for_each mret M_ret red_flags app consolidated_data
    verification_score].
  eexists _, _. split; [reflexivity|]. cbn [systems_checked consolidated_data
    red_flags verification_score].
  assert (length (failures (adapter_outcomes W bn s))
          = length (_determine_relevant_systems bn)) as Hlen.
  { pose proof (outcomes_length (adapter_outcomes W bn s)) as Hl.
    rewrite Hs in Hl. simpl in Hl.
    by rewrite Hl, <- (outcomes_systems W bn s), length_fmap. }
  cbn [with_score systems_checked consolidated_data red_flags
       verification_score].
  split; [done|]. split; [done|]. split; [by rewrite length_fmap|].
  rewrite score_counts. cbn [systems_checked red_flags length].
  apply clamp_floor. unfold raw_score. rewrite length_fmap, Hlen.
  pose proof (selected_at_least_four bn) as H4.
  assert (inject_Z 4 <= inject_Z (Z.of_nat (length (_determine_relevant_systems bn))))%Q
    as Hq by (rewrite <- Zle_Qle; lia).
  change (inject_Z (4 - Z.of_nat 0)) with (inject_Z 4).
  change (inject_Z 4) with 4%Q in *. lra.
Qed.

(** X19. When every database statement fails and nothing is cached for
    the business, the run returns with no registry checked, score 0 and
    one failure flag per selected registry, each carrying an exception of
    the database, whatever the registries answered; all the requests are
    sent nevertheless. *)
Theorem database_down_fails_every_registry W bn s :
  db_down W →
  (∀ sys, sys ∈ _determine_relevant_systems bn → uncached s bn sys = true) →
  ∃ r s',
    verify_business_across_systems W bn s = (inr r, s')
    ∧ systems_checked r = []
    ∧ (verification_score r == 0)%Q
    ∧ length (red_flags r) = length (_determine_relevant_systems bn)
    ∧ Forall (λ flag, ∃ sys e, db_failure W e ∧ flag = failure_flag sys e)
        (red_flags r)
    ∧ length (net_calls s')
      = (length (net_calls s) + length (_determine_relevant_systems bn))%nat.
Proof.
  intros Hdown Hun.
  pose proof (run_all_db_down W bn (_determine_relevant_systems bn)
                (utcnow W s).2 Hdown (selected_NoDup bn)
                (selected_have_endpoints bn) Hun) as Hall.
  assert (Forall (λ o : result value, ∃ e, o = inl e)
            (run_all (_verify_with_system W bn <$> _determine_relevant_systems bn)
               (utcnow W s).2).1) as Hinl
    by (eapply Forall_impl; [exact Hall|]; intros o (e & -> & _); eauto).
  destruct (zip_failures (_determine_relevant_systems bn) _ Hinl) as [Hs Hf].
  fold (adapter_outcomes W bn s) in Hs, Hf.
  destruct (run_without_success W bn s Hs) as (r & s' & Hv & Hc & Hfl & Hlen & Hsc).
  exists r, s'. split; [done|]. split; [done|]. split; [done|]. split; [done|].
  split.
  - rewrite Hfl. apply Forall_fmap. eapply Forall_impl; [exact Hf|].
    intros [sys e] Hin. simpl in *. exists sys, e. split; [|done].
    apply list_elem_of_In in Hin. rewrite Forall_forall in Hall.
    destruct (Hall _ Hin) as (e' & [= <-] & Hdb). done.
  - destruct (gather_requests W bn s) as ((reqs & Hn & Hr) & _).
    { intros sys d t n Hin Hc'. specialize (Hun sys Hin). unfold uncached in Hun.
      by rewrite Hc' in Hun. }
    rewrite <- (proj2 (verify_state W bn s)) in Hn.
    rewrite Hv in Hn. simpl in Hn. rewrite Hn, length_app. f_equal.
    apply (f_equal length) in Hr. rewrite !length_fmap in Hr. rewrite Hr.
    f_equal. clear -Hun. induction (_determine_relevant_systems bn) as [|x l IH];
      [done|].
    cbn [List.filter]. rewrite Hun by (by left). simpl. f_equal.
    apply IH. intros sys Hin. apply Hun. by right.
Qed.

(** ** Reports *)

Lemma float_div_inr a b q :
  Analytics.float_div a b = inr q → ¬ (b == 0)%Q ∧ q = (a / b)%Q.
Proof.
  unfold Analytics.float_div. destruct (Qeq_bool b 0) eqn:Hb; [done|].
  intros [= <-]. split; [|done]. by apply Qeq_bool_neq.
Qed.

Lemma await_inr {A} (answer : result A) a :
  Analytics.await answer = inr a → answer = inr a.
Proof. destruct answer; [done|]. by intros [= ->]. Qed.

Lemma outcome_bind_inr {A B} (m : Analytics.outcome A)
    (f : A → Analytics.outcome B) b :
  m ≫= f = inr b → ∃ a, m = inr a ∧ f a = inr b.
Proof. destruct m; [done|]. simpl. eauto. Qed.

(** X20. [calculate_program_savings] raises [ZeroDivisionError] when both
    queries succeed and the monthly breakdown is empty.  When it returns,
    the breakdown is what the first query answered and is not empty, and
    the projected annual savings are twelve times the prevented total
    divided by the number of months in the breakdown. *)
Theorem savings_projection_needs_a_flagged_month db utcnow :
  (∀ totals,
     Analytics.monthly_savings db = inr [] →
     Analytics.savings_totals db = inr totals →
     Analytics.calculate_program_savings db utcnow
     = inl Analytics.ZeroDivisionError)
  ∧ (∀ report,
       Analytics.calculate_program_savings db utcnow = inr report →
       Analytics.monthly_savings db = inr (Analytics.monthly_breakdown report)
       ∧ Analytics.monthly_breakdown report ≠ []
       ∧ (Analytics.projected_annual_savings report
          * inject_Z (Z.of_nat (length (Analytics.monthly_breakdown report)))
          == Analytics.total_contracts_prevented report * 12)%Q).
Proof.
  split.
  - intros totals Hm Ht. unfold Analytics.calculate_program_savings.
    by rewrite Hm, Ht.
  - intros report H. unfold Analytics.calculate_program_savings in H.
    apply outcome_bind_inr in H as (months & Hm & H).
    apply outcome_bind_inr in H as (totals & Ht & H).
    apply outcome_bind_inr in H as (projected & Hp & H).
    injection H as <-. simpl. apply await_inr in Hm.
    apply float_div_inr in Hp as [Hne ->].
    split; [done|]. split.
    + intros ->. by apply Hne.
    + field. exact Hne.
Qed.

(** X21. [generate_compliance_metrics] raises [ZeroDivisionError] when
    both queries succeed and there is no active business.  When it
    returns, the number of businesses is not zero, and the compliance
    rate lies between 0 and 100 provided the verified businesses are
    between 0 and the total. *)
Theorem compliance_rate_needs_a_business db utcnow :
  (∀ departments overall,
     Analytics.department_metrics db = inr departments →
     Analytics.overall_metrics db = inr overall →
     Analytics.total_businesses overall = 0 →
     Analytics.generate_compliance_metrics db utcnow
     = inl Analytics.ZeroDivisionError)
  ∧ (∀ report,
       Analytics.generate_compliance_metrics db utcnow = inr report →
       let verified := Analytics.verified_businesses (Analytics.overall report) in
       let total := Analytics.total_businesses (Analytics.overall report) in
       Analytics.overall_metrics db = inr (Analytics.overall report)
       ∧ total ≠ 0
       ∧ (0 ≤ verified ≤ total →
          (0 <= Analytics.compliance_rate report <= 100)%Q)).
Proof.
  split.
  - intros departments overall Hd Ho Hz.
    unfold Analytics.generate_compliance_metrics. rewrite Hd, Ho. simpl.
    by rewrite Hz.
  - intros report H. unfold Analytics.generate_compliance_metrics in H.
    apply outcome_bind_inr in H as (departments & Hd & H).
    apply outcome_bind_inr in H as (overall & Ho & H).
    apply outcome_bind_inr in H as (ratio & Hr & H).
    injection H as <-. simpl. apply await_inr in Ho.
    apply float_div_inr in Hr as [Hne ->].
    split; [done|].
    assert (Analytics.total_businesses overall ≠ 0) as Hne'.
    { intros Hz. apply Hne. by rewrite Hz. }
    split; [done|]. intros [Hv Ht].
    assert (0 < inject_Z (Analytics.total_businesses overall))%Q as Hpos.
    { change 0%Q with (inject_Z 0). rewrite <- Zlt_Qlt. lia. }
    assert (0 <= inject_Z (Analytics.verified_businesses overall))%Q as Hv'.
    { change 0%Q with (inject_Z 0). rewrite <- Zle_Qle. lia. }
    assert (inject_Z (Analytics.verified_businesses overall)
            <= inject_Z (Analytics.total_businesses overall))%Q as Ht'
      by (rewrite <- Zle_Qle; lia).
    split.
    + apply Qmult_le_0_compat; [|done]. apply Qle_shift_div_l; [done|]. lra.
    + assert (inject_Z (Analytics.verified_businesses overall)
              / inject_Z (Analytics.total_businesses overall) <= 1)%Q as Hone
        by (apply Qle_shift_div_r; [done|]; lra).
      lra.
Qed.

(** ** Witnesses of the further properties *)

Lemma verify_with_system_keeps_other_entries_witness :
  cache (_verify_with_system world_partial bn_example ISED state_cached).2
    !! cache_key CRA bn_example
  = Some (cached_document, 0).
Proof.
  rewrite (verify_with_system_keeps_other_entries world_partial bn_example
             ISED state_cached CRA bn_example) by discriminate.
  vm_compute. reflexivity.
Defined.

Lemma unconfigured_system_is_refused_witness :
  (_verify_with_system world_healthy bn_example BC_REG initial_state).1
  = inl (KeyError "<SystemCode.BC_REG: 'bc_reg'>")
  ∧ net_calls (_verify_with_system world_healthy bn_example BC_REG
                 initial_state).2 = [].
Proof.
  destruct (unconfigured_system_is_refused world_healthy bn_example BC_REG
              initial_state eq_refl) as (Hraised & _ & Hnet & _).
  split; [exact Hraised|exact Hnet].
Defined.

Lemma fetched_document_is_served_again_witness :
  let first := _verify_with_system world_partial bn_example CRA initial_state in
  (_verify_with_system world_partial bn_example CRA first.2).1
  = inr (document first)
  ∧ net_calls (_verify_with_system world_partial bn_example CRA first.2).2
    = net_calls first.2.
Proof.
  intros first.
  destruct (fetched_document_is_served_again world_partial bn_example CRA
              cra_endpoint initial_state initial_state (document first))
    as [Hstored Hagain];
    [reflexivity|vm_compute; reflexivity|vm_compute; reflexivity|].
  destruct (Hagain first.2 Hstored) as (H1 & H2 & _);
    [vm_compute; reflexivity|].
  split; [exact H1|exact H2].
Defined.

Lemma requests_go_to_the_configured_endpoint_witness :
  let out := _verify_with_system world_partial bn_example CRA initial_state in
  net_calls out.2 = net_calls initial_state
  ∨ ∃ req,
      net_calls out.2 = net_calls initial_state ++ [req]
      ∧ has_prefix (base_url cra_endpoint) (req_url req) = true
      ∧ (∀ sys' ep', endpoints sys' = Some ep' →
           has_prefix (base_url ep') (req_url req) = true → sys' = CRA)
      ∧ req_timeout req = timeout cra_endpoint
      ∧ (∀ s0, _get_auth_headers CRA s0 = (inr (req_headers req), s0))
      ∧ (auth_type cra_endpoint = "oauth2" →
           req_headers req
           = VDict {[ "Authorization" := VStr "Bearer mock_oauth_token" ]})
      ∧ (auth_type cra_endpoint = "api_key" →
           req_headers req = VDict {[ "X-API-Key" := VStr "mock_api_key" ]})
      ∧ (auth_type cra_endpoint = "certificate" →
           req_headers req
           = VDict {[ "X-Client-Certificate" := VStr "mock_client_cert" ]})
      ∧ auth_type cra_endpoint ∈ ["oauth2"; "api_key"; "certificate"].
Proof.
  exact (requests_go_to_the_configured_endpoint world_partial bn_example CRA
           cra_endpoint initial_state eq_refl).
Defined.

Lemma every_request_is_logged_witness :
  let out := _verify_with_system world_down bn_example CRA initial_state in
  ∃ rows,
    db_calls out.2 = db_calls initial_state ++ rows
    ∧ (rows = [] ↔ net_calls out.2 = net_calls initial_state)
    ∧ (∀ d, out.1 = inr d →
         rows = [] ∨ ∃ n, rows = [log_row world_down bn_example CRA true None n])
    ∧ (∀ e, out.1 = inl e →
         ∃ before msg n,
           rows = before ++ [log_row world_down bn_example CRA false (Some msg) n]
           ∧ (before = []
              ∨ ∃ m, before = [log_row world_down bn_example CRA true None m])).
Proof.
  exact (every_request_is_logged world_down bn_example CRA cra_endpoint
           initial_state eq_refl).
Defined.

Lemma any_json_object_is_a_verification_witness :
  is_ok (fetch world_not_found bn_example CRA cra_endpoint VNone
           initial_state).1 = true.
Proof.
  apply (any_json_object_is_a_verification world_not_found bn_example CRA
           cra_endpoint VNone initial_state (cra_request VNone)).
  - vm_compute. left.
  - vm_compute. reflexivity.
  - eexists. split; [vm_compute; reflexivity|]. eexists. reflexivity.
Defined.

Lemma pspc_contract_counts_witness :
  let out := _verify_pspc world_contracts bn_example pspc_endpoint VNone
               initial_state in
  ∃ answer doc contracts,
    http_at world_contracts (length (net_calls initial_state))
      (pspc_request bn_example pspc_endpoint VNone) = inr (VDict answer)
    ∧ document out = VDict doc
    ∧ ((dict_get answer "contracts" (VList []) = VList contracts
        ∧ doc !! "recent_contracts" = Some (VList (take 10 contracts)))
       ∨ (dict_get answer "contracts" (VList []) = VStr ""
          ∧ contracts = []
          ∧ doc !! "recent_contracts" = Some (VStr "")))
    ∧ Forall (λ c, ∃ d, c = VDict d) contracts
    ∧ doc !! "total_contracts" = Some (VInt (Z.of_nat (length contracts)))
    ∧ doc !! "active_contracts"
      = Some (VInt (Z.of_nat
                      (length (List.filter (has_status "active") contracts))))
    ∧ doc !! "completed_contracts"
      = Some (VInt (Z.of_nat
                      (length (List.filter (has_status "completed") contracts))))
    ∧ (length (List.filter (has_status "active") contracts)
       + length (List.filter (has_status "completed") contracts)
       ≤ length contracts)%nat
    ∧ (∀ amounts,
         Forall2 (λ c n, ∃ d, c = VDict d
                              ∧ dict_get d "value" (VInt 0) = VInt n)
           contracts amounts →
         doc !! "total_contract_value"
         = Some (VInt (foldr Z.add 0 amounts))).
Proof.
  intros out.
  apply (pspc_contract_counts world_contracts bn_example pspc_endpoint VNone
           initial_state (document out) out.2).
  vm_compute. reflexivity.
Defined.

Lemma merge_files_fields_under_the_tag_witness :
  ∃ merged section,
    _merge_verification_data ∅ (VDict {[ "name" := VStr "Acme" ]}) = inr merged
    ∧ merged !! HNone = Some section
    ∧ section !! "name" = Some (VStr "Acme").
Proof.
  destruct (merge_files_fields_under_the_tag ∅ {[ "name" := VStr "Acme" ]} HNone)
    as (merged & section & Hm & Hs & _ & Hfield & _);
    [vm_compute; reflexivity|].
  exists merged, section. split; [exact Hm|]. split; [exact Hs|].
  apply Hfield; [discriminate|vm_compute; reflexivity].
Defined.


Lemma status_flag_iff_active_with_cra_only_witness :
  ∃ other name,
    status_mismatch consolidated_active ised_dissolved other name
    ∧ status_flag "dissolved" "ISED" = status_flag other name.
Proof.
  apply (status_flag_iff_active_with_cra_only consolidated_active ised_dissolved
           ISED [status_flag "dissolved" "ISED"]).
  - vm_compute. reflexivity.
  - split; [left|reflexivity].
Defined.


Lemma non_numeric_percentage_aborts_the_run_witness :
  ∃ e, (verify_business_across_systems world_bare bn_example initial_state).1
       = inl e.
Proof.
  eapply (non_numeric_percentage_aborts_the_run world_bare bn_example
            initial_state _ _ initial_cache_wf).
  - vm_compute. right. left.
  - vm_compute. right. right. left.
  - vm_compute. reflexivity.
Defined.

Lemma full_score_iff_no_red_flag_witness :
  (Binary64.to_Q
     (Binary64.score (length (systems_checked (returned run_blanks)))
        (length (red_flags (returned run_blanks))))
   <= (19 # 20) + (1 # 1000000000000000))%Q.
Proof.
  destruct (full_score_iff_no_red_flag world_blanks bn_example initial_state
              (returned run_blanks) run_blanks.2 initial_cache_wf
              (returned_run run_blanks ltac:(vm_compute; reflexivity)))
    as (_ & _ & Hbound).
  apply Hbound. vm_compute. discriminate.
Defined.

Lemma stored_snapshots_are_empty_witness :
  db_calls run_healthy.2
  = db_calls (state_after_gather world_healthy bn_example initial_state)
    ++ imap (λ i system,
               UpsertSnapshot bn_example system bn_example ∅
                 (returned run_healthy)
                 (utcnow_at world_healthy
                    (clock_reads (state_after_gather world_healthy bn_example
                                    initial_state) + i))
                 "success")
            (systems_checked (returned run_healthy)).
Proof.
  exact (stored_snapshots_are_empty world_healthy bn_example initial_state
           (returned run_healthy) run_healthy.2 initial_cache_wf
           (returned_run run_healthy ltac:(vm_compute; reflexivity))).
Defined.

Lemma initial_lasting W bn systems : lasting W bn systems initial_state.
Proof.
  intros sys d t n _ Hc. change (cache initial_state) with (∅ : gmap string (value * Z)) in Hc.
  by rewrite lookup_empty in Hc.
Qed.

Lemma cached_lasting systems :
  lasting world_frozen bn_example systems state_cached.
Proof.
  intros sys d t n _ Hc.
  change (cache state_cached)
    with ({[ cache_key CRA bn_example := (cached_document, 0) ]}
          : gmap string (value * Z)) in Hc.
  apply lookup_singleton_Some in Hc as [_ [= _ <-]]. done.
Qed.

Lemma run_queries_exactly_the_uncached_registries_witness :
  (∃ reqs,
     net_calls run_partial.2 = reqs
     ∧ registry_of <$> reqs = Some <$> [CRA; ISED; ISC; PSPC; ON_ONBIS])
  ∧ (∃ reqs,
       net_calls (verify_business_across_systems world_frozen bn_example
                    state_cached).2 = reqs
       ∧ registry_of <$> reqs = Some <$> [ISED; ISC; PSPC; ON_ONBIS]).
Proof.
  split.
  - destruct (run_queries_exactly_the_uncached_registries world_partial
                bn_example initial_state (initial_lasting _ _ _))
      as ((reqs & Hn & Hr) & _).
    exists reqs. split; [exact Hn|exact Hr].
  - destruct (run_queries_exactly_the_uncached_registries world_frozen
                bn_example state_cached (cached_lasting _))
      as ((reqs & Hn & Hr) & _).
    exists reqs. split; [exact Hn|].
    etransitivity; [exact Hr|]. vm_compute. reflexivity.
Defined.

Lemma frozen_short_session : short_session world_frozen.
Proof. intros i j. reflexivity. Qed.

Lemma initial_stamped W : stamped W (cache initial_state).
Proof.
  intros k d t Hc. change (cache initial_state) with (∅ : gmap string (value * Z)) in Hc.
  by rewrite lookup_empty in Hc.
Qed.

Lemma second_run_requeries_only_failures_witness :
  let s1 := (verify_business_across_systems world_frozen bn_example
               initial_state).2 in
  ∃ reqs,
    net_calls (verify_business_across_systems world_frozen bn_example s1).2
    = net_calls s1 ++ reqs
    ∧ (length reqs ≤ 3)%nat.
Proof.
  intros s1.
  destruct (second_run_requeries_only_failures world_frozen bn_example
              initial_state frozen_short_session (initial_stamped _))
    as (reqs & Hn & Hlen & _).
  exists reqs. split; [exact Hn|].
  etransitivity; [exact Hlen|]. vm_compute. reflexivity.
Defined.

Lemma database_down_fails_every_registry_witness :
  ∃ r s',
    run_db_down = (inr r, s')
    ∧ systems_checked r = []
    ∧ (verification_score r == 0)%Q
    ∧ length (net_calls s') = 5%nat.
Proof.
  destruct (database_down_fails_every_registry world_db_down bn_example
              initial_state)
    as (r & s' & Hrun & Hc & Hs & _ & _ & Hn).
  - intros n c. eexists. reflexivity.
  - intros sys _. reflexivity.
  - exists r, s'. split; [exact Hrun|]. split; [exact Hc|].
    split; [exact Hs|exact Hn].
Defined.

Lemma savings_projection_needs_a_flagged_month_witness :
  Analytics.calculate_program_savings no_flagged_month 0
  = inl Analytics.ZeroDivisionError
  ∧ ∃ report,
      Analytics.calculate_program_savings two_flagged_months 0 = inr report
      ∧ (Analytics.projected_annual_savings report
         * inject_Z (Z.of_nat (length (Analytics.monthly_breakdown report)))
         == Analytics.total_contracts_prevented report * 12)%Q.
Proof.
  destruct (savings_projection_needs_a_flagged_month no_flagged_month 0)
    as [Hraises _].
  destruct (savings_projection_needs_a_flagged_month two_flagged_months 0)
    as [_ Hreturns].
  split; [eapply Hraises; reflexivity|].
  destruct (Analytics.calculate_program_savings two_flagged_months 0)
    as [e|report] eqn:Hrun.
  - vm_compute in Hrun. discriminate Hrun.
  - exists report. split; [reflexivity|].
    destruct (Hreturns report eq_refl) as (_ & _ & Hprojected). exact Hprojected.
Defined.

Lemma compliance_rate_needs_a_business_witness :
  Analytics.generate_compliance_metrics no_flagged_month 0
  = inl Analytics.ZeroDivisionError
  ∧ ∃ report,
      Analytics.generate_compliance_metrics two_flagged_months 0 = inr report
      ∧ (0 <= Analytics.compliance_rate report <= 100)%Q.
Proof.
  destruct (compliance_rate_needs_a_business no_flagged_month 0)
    as [Hraises _].
  destruct (compliance_rate_needs_a_business two_flagged_months 0)
    as [_ Hreturns].
  split; [eapply Hraises; reflexivity|].
  destruct (Analytics.generate_compliance_metrics two_flagged_months 0)
    as [e|report] eqn:Hrun.
  - vm_compute in Hrun. discriminate Hrun.
  - exists report. split; [reflexivity|].
    destruct (Hreturns report eq_refl) as (Hoverall & _ & Hbound).
    apply Hbound. injection Hoverall as <-. simpl. lia.
Defined.

Lemma unlogged_document_stays_cached_witness :
  let out := _verify_with_system world_db_down bn_example CRA initial_state in
  (∃ e', out.1 = inl e')
  ∧ is_Some (cache out.2 !! cache_key CRA bn_example).
Proof.
  intros out.
  destruct (unlogged_document_stays_cached world_db_down bn_example CRA
              cra_endpoint initial_state initial_state
              (VDict {[ "Authorization" := VStr "Bearer mock_oauth_token" ]})
              (document (fetch world_db_down bn_example CRA cra_endpoint
                           (VDict {[ "Authorization" :=
                                       VStr "Bearer mock_oauth_token" ]})
                           initial_state))
              (fetch world_db_down bn_example CRA cra_endpoint
                 (VDict {[ "Authorization" := VStr "Bearer mock_oauth_token" ]})
                 initial_state).2
              db_refuses)
    as (Hfails & Hcached & _); try (vm_compute; reflexivity).
  subst out. split; [exact Hfails|]. rewrite Hcached. eauto.
Defined.

Lemma consolidated_sections_are_the_documents_witness :
  consolidated_data (returned run_not_found) !! tag CRA
  = Some (delete "system"
            (list_to_map
               [("system", VStr "CRA"); ("business_status", VNone);
                ("registration_date", VNone); ("business_type", VNone);
                ("gst_registered", VNone); ("payroll_account", VNone);
                ("tax_filing_status", VNone); ("directors", VList []);
                ("mailing_address", VNone); ("physical_address", VNone)])).
Proof.
  apply (consolidated_sections_are_the_documents world_not_found bn_example
           initial_state (returned run_not_found) run_not_found.2 CRA _
           initial_cache_wf
           (returned_run run_not_found ltac:(vm_compute; reflexivity))).
  vm_compute. left.
Defined.
